(** * Preparation of a transaction's key operations
    (core/ledger/kvledger/txmgmt/validator/valinternal/tx_ops_preparation.go)

    A shallow embedding of [prepareTxOps], [applyTxRwset], [applyKVWrite],
    [applyMetadata] and [retrieveLatestState], and the properties of the
    merge they implement. *)

From Stdlib Require Import Strings.String Strings.Byte.
From stdpp Require Import gmap strings list fin_maps.

Local Open Scope string_scope.
Local Open Scope list_scope.

(** ** Go values *)

(** A Go [[]byte]; [None] is the nil slice, [Some []] an empty one. *)
Definition bytes : Type := option (list Byte.byte).

(** The bytes a slice holds (nil holds none). *)
Definition content (b : bytes) : list Byte.byte := default [] b.

(** The conversion [string(b)]: a copy of the bytes. *)
Definition string_of_bytes (b : bytes) : string :=
  string_of_list_byte (content b).

(** The conversion [[]byte(s)]: a copy of the bytes, never nil. *)
Definition bytes_of_string (s : string) : bytes :=
  Some (list_byte_of_string s).

(** Go's [error] values, by the two kinds the collaborators raise. *)
Inductive error : Type :=
| StorageError (msg : string)
| EncodingError (msg : string).

(** ** Collaborators (declared in other packages)

    The records below carry the fields this file reads.  Where two Go
    structs share a field name the second one is prefixed here: [WriteValue]
    is [KVWrite.Value], [MetadataKey] is [KVMetadataWrite.Key],
    [HashIsDelete] is [KVWriteHash.IsDelete], [MetadataKeyHash] and
    [HashEntries] are [KVMetadataWriteHash.KeyHash] and [.Entries],
    [HashedMetadataWrites] is [HashedRWSet.MetadataWrites], and [EntryValue]
    is [KVMetadataEntry.Value]. *)

(** version.Height *)
Record Height : Type := mkHeight { BlockNum : N; TxNum : N }.

(** statedb.VersionedValue *)
Record VersionedValue : Type := mkVersionedValue {
  Value : bytes;
  Metadata : bytes;
  Version : option Height
}.

(** kvrwset.KVMetadataEntry *)
Record KVMetadataEntry : Type := mkKVMetadataEntry {
  Name : string;
  EntryValue : bytes
}.

(** kvrwset.KVWrite *)
Record KVWrite : Type := mkKVWrite {
  Key : string;
  IsDelete : bool;
  WriteValue : bytes
}.

(** kvrwset.KVMetadataWrite; [Entries] is a slice and may be nil. *)
Record KVMetadataWrite : Type := mkKVMetadataWrite {
  MetadataKey : string;
  Entries : option (list KVMetadataEntry)
}.

(** kvrwset.KVWriteHash *)
Record KVWriteHash : Type := mkKVWriteHash {
  KeyHash : bytes;
  HashIsDelete : bool;
  ValueHash : bytes
}.

(** kvrwset.KVMetadataWriteHash *)
Record KVMetadataWriteHash : Type := mkKVMetadataWriteHash {
  MetadataKeyHash : bytes;
  HashEntries : option (list KVMetadataEntry)
}.

(** kvrwset.KVRWSet, the write side. *)
Record KVRWSet : Type := mkKVRWSet {
  Writes : list KVWrite;
  MetadataWrites : list KVMetadataWrite
}.

(** kvrwset.HashedRWSet, the write side. *)
Record HashedRWSet : Type := mkHashedRWSet {
  HashedWrites : list KVWriteHash;
  HashedMetadataWrites : list KVMetadataWriteHash
}.

(** rwsetutil.CollHashedRwSet *)
Record CollHashedRwSet : Type := mkCollHashedRwSet {
  CollectionName : string;
  HashedRwSet : HashedRWSet
}.

(** rwsetutil.NsRwSet *)
Record NsRwSet : Type := mkNsRwSet {
  NameSpace : string;
  KvRwSet : KVRWSet;
  CollHashedRwSets : list CollHashedRwSet
}.

(** rwsetutil.TxRwSet *)
Record TxRwSet : Type := mkTxRwSet { NsRwSets : list NsRwSet }.

(** PubAndHashUpdates: the updates of the preceding transactions of the
    block, read through [PubUpdates.Get] and [HashUpdates.Get]; neither
    returns an error. *)
Record PubAndHashUpdates : Type := mkPubAndHashUpdates {
  PubUpdates_Get : string -> string -> option VersionedValue;
  HashUpdates_Get : string -> string -> string -> option VersionedValue
}.

(** privacyenabledstate.DB, the two reads used here; each returns a Go pair
    [(vv, err)]. *)
Record DB : Type := mkDB {
  GetState : string -> string -> option VersionedValue * option error;
  GetValueHash :
    string -> string -> bytes -> option VersionedValue * option error
}.

(** The calls made on the two lookup sources, in the order they are made. *)
Inductive Lookup : Type :=
| PubUpdatesGet (ns key : string)
| HashUpdatesGet (ns coll key : string)
| DbGetState (ns key : string)
| DbGetValueHash (ns coll : string) (keyHash : bytes).

Definition Trace : Type := list Lookup.

Definition isDbLookup (l : Lookup) : bool :=
  match l with
  | DbGetState _ _ | DbGetValueHash _ _ _ => true
  | _ => false
  end.

(** ** compositeKey, keyOps and txOps *)

(** Modelled from the spec: the declaration of [compositeKey] is not part of
    this file, which builds it as [compositeKey{ns, coll, key}] and reads
    [ck.ns], [ck.coll] and [ck.key]; equality is structural. *)
Record compositeKey : Type := mkCompositeKey {
  ns : string;
  coll : string;
  key : string
}.

Global Instance compositeKey_eq_dec : EqDecision compositeKey.
Proof. solve_decision. Defined.

Global Instance compositeKey_countable : Countable compositeKey.
Proof.
  apply (inj_countable' (fun ck => (ns ck, coll ck, key ck))
                        (fun t => mkCompositeKey t.1.1 t.1.2 t.2)).
  by intros [].
Defined.

(** Modelled from the spec: what the transaction did to the metadata of a
    key: nothing, set it ([metadataUpdate]) or cleared it
    ([metadataDelete]); cleared is distinct from untouched. *)
Inductive metadataShape : Type :=
| MetadataUntouched
| MetadataTouched
| MetadataCleared.

Global Instance metadataShape_eq_dec : EqDecision metadataShape.
Proof. solve_decision. Defined.

(** Modelled from the spec: the declaration of [keyOps] and of its flags is
    not part of this file.  A key operation holds a value and a metadata
    (both optional), a delete mark, and what distinguishes the write shapes:
    whether the value was touched and what was done to the metadata. *)
Record keyOps : Type := mkKeyOps {
  deleted : bool;
  valueTouched : bool;
  metadataTouch : metadataShape;
  value : bytes;
  metadata : bytes
}.

(** The assignment [keyop.value = v]. *)
Definition set_value (keyop : keyOps) (v : bytes) : keyOps :=
  mkKeyOps (deleted keyop) (valueTouched keyop) (metadataTouch keyop)
           v (metadata keyop).

(** The assignment [keyop.metadata = md]. *)
Definition set_metadata (keyop : keyOps) (md : bytes) : keyOps :=
  mkKeyOps (deleted keyop) (valueTouched keyop) (metadataTouch keyop)
           (value keyop) md.

(** Modelled from the spec: [txOps] is a Go map from compositeKey to keyOps
    whose entries are changed in place (the map holds pointers); no two keys
    share an entry. *)
Abbreviation txOps := (gmap compositeKey keyOps).

(** Modelled from the spec: a key seen for the first time starts from an
    entry with nothing touched. *)
Definition getOrCreateKeyEntry (txops : txOps) (k : compositeKey) : keyOps :=
  default (mkKeyOps false false MetadataUntouched None None) (txops !! k).

(** Modelled from the spec: [upsert] sets the value, clears the delete mark
    and marks the value touched; metadata of the same transaction stays. *)
Definition upsert (txops : txOps) (k : compositeKey) (val : bytes) : txOps :=
  let keyops := getOrCreateKeyEntry txops k in
  <[k := mkKeyOps false true (metadataTouch keyops) val (metadata keyops)]>
    txops.

(** Modelled from the spec: [delete] (a name the map library takes here)
    marks the delete and discards value and metadata. *)
Definition delete_key (txops : txOps) (k : compositeKey) : txOps :=
  <[k := mkKeyOps true false MetadataUntouched None None]> txops.

(** Modelled from the spec: [metadataUpdate] sets the metadata and marks it
    touched. *)
Definition metadataUpdate (txops : txOps) (k : compositeKey) (md : bytes)
  : txOps :=
  let keyops := getOrCreateKeyEntry txops k in
  <[k := mkKeyOps (deleted keyops) (valueTouched keyops) MetadataTouched
                  (value keyops) md]> txops.

(** Modelled from the spec: [metadataDelete] records the metadata as
    cleared, that is known to be absent. *)
Definition metadataDelete (txops : txOps) (k : compositeKey) : txOps :=
  let keyops := getOrCreateKeyEntry txops k in
  <[k := mkKeyOps (deleted keyops) (valueTouched keyops) MetadataCleared
                  (value keyops) None]> txops.

(** Modelled from the spec: the entry is a delete. *)
Definition isDelete (keyops : keyOps) : bool := deleted keyops.

(** Modelled from the spec: value and metadata are both set by the
    transaction itself (a cleared metadata is set: it needs no merge). *)
Definition isUpsertAndMetadataUpdate (keyops : keyOps) : bool :=
  valueTouched keyops &&
  negb (bool_decide (metadataTouch keyops = MetadataUntouched)).

(** Modelled from the spec: value touched, metadata untouched and not marked
    [metadataDelete]. *)
Definition isOnlyUpsert (keyops : keyOps) : bool :=
  valueTouched keyops &&
  bool_decide (metadataTouch keyops = MetadataUntouched).

(** ** The functions of tx_ops_preparation.go *)

Section Preparation.

(** storageutil.SerializeMetadata, returning a Go pair [(bytes, err)]. *)
Variable SerializeMetadata :
  list KVMetadataEntry -> bytes * option error.

(** applyKVWrite records upsertion/deletion of a kvwrite. *)
Definition applyKVWrite (txops : txOps) (ns coll : string) (kvWrite : KVWrite)
  : txOps :=
  if IsDelete kvWrite then
    delete_key txops (mkCompositeKey ns coll (Key kvWrite))
  else
    upsert txops (mkCompositeKey ns coll (Key kvWrite)) (WriteValue kvWrite).

(** applyMetadata records updatation/deletion of a metadataWrite; the
    result is the map after the call and the returned error. *)
Definition applyMetadata (txops : txOps) (ns coll : string)
    (metadataWrite : KVMetadataWrite) : txOps * option error :=
  match Entries metadataWrite with
  | None =>
      (metadataDelete txops
         (mkCompositeKey ns coll (MetadataKey metadataWrite)), None)
  | Some entries =>
      let '(metadataBytes, err) := SerializeMetadata entries in
      match err with
      | Some e => (txops, Some e)
      | None =>
          (metadataUpdate txops
             (mkCompositeKey ns coll (MetadataKey metadataWrite))
             metadataBytes, None)
      end
  end.

(** The body of the loop over [collHashRWset]s. *)
Definition applyCollHashedRwSet (ns : string) (txops : txOps)
    (collHashRWset : CollHashedRwSet) : txOps :=
  let coll := CollectionName collHashRWset in
  let txops :=
    fold_left
      (fun txops hashedWrite =>
         applyKVWrite txops ns coll
           (mkKVWrite (string_of_bytes (KeyHash hashedWrite))
                      (HashIsDelete hashedWrite)
                      (ValueHash hashedWrite)))
      (HashedWrites (HashedRwSet collHashRWset)) txops in
  fold_left
    (fun txops metadataWrite =>
       (* the error applyMetadata returns is not looked at *)
       fst (applyMetadata txops ns coll
              (mkKVMetadataWrite
                 (string_of_bytes (MetadataKeyHash metadataWrite))
                 (HashEntries metadataWrite))))
    (HashedMetadataWrites (HashedRwSet collHashRWset)) txops.

(** The body of the loop over [nsRWSet]s. *)
Definition applyNsRwSet (txops : txOps) (nsRWSet : NsRwSet) : txOps :=
  let ns := NameSpace nsRWSet in
  let txops :=
    fold_left (fun txops kvWrite => applyKVWrite txops ns "" kvWrite)
              (Writes (KvRwSet nsRWSet)) txops in
  let txops :=
    fold_left
      (fun txops kvMetadataWrite =>
         (* the error applyMetadata returns is not looked at *)
         fst (applyMetadata txops ns "" kvMetadataWrite))
      (MetadataWrites (KvRwSet nsRWSet)) txops in
  fold_left (applyCollHashedRwSet ns) (CollHashedRwSets nsRWSet) txops.

(** applyTxRwset records the upsertion/deletion of a kv and
    updatation/deletion of associated metadata present in a txrwset; it
    ends in [return nil]. *)
Definition applyTxRwset (txops : txOps) (rwset : TxRwSet)
  : txOps * option error :=
  (fold_left applyNsRwSet (NsRwSets rwset) txops, None).

(** retrieveLatestState returns the value of the key from the
    precedingUpdates, and pulls it from the statedb when it is not there.
    The result is the Go pair [(vv, err)] and the lookups made. *)
Definition retrieveLatestState (ns coll key : string)
    (precedingUpdates : PubAndHashUpdates) (db : DB)
  : (option VersionedValue * option error) * Trace :=
  if decide (coll = "") then
    match PubUpdates_Get precedingUpdates ns key with
    | None => (GetState db ns key, [PubUpdatesGet ns key; DbGetState ns key])
    | Some vv => ((Some vv, None), [PubUpdatesGet ns key])
    end
  else
    match HashUpdates_Get precedingUpdates ns coll key with
    | None =>
        (GetValueHash db ns coll (bytes_of_string key),
         [HashUpdatesGet ns coll key;
          DbGetValueHash ns coll (bytes_of_string key)])
    | Some vv => ((Some vv, None), [HashUpdatesGet ns coll key])
    end.

(** How one pass of the body of the [range] loop of prepareTxOps ends:
    the loop goes on with the map as it is now, or the function returns
    [nil, err]. *)
Inductive LoopStep : Type :=
| Continue (txops : txOps)
| ReturnErr (err : error).

(** The body of [for ck, keyop := range txops]. [keyop] points into the
    map: an assignment to one of its fields changes the entry of [ck]. *)
Definition rangeBody (precedingUpdates : PubAndHashUpdates) (db : DB)
    (ck : compositeKey) (keyop : keyOps) (txops : txOps)
  : LoopStep * Trace :=
  if isDelete keyop || isUpsertAndMetadataUpdate keyop then
    (Continue txops, [])
  else
    let '((latestVal, err), tr) :=
      retrieveLatestState (ns ck) (coll ck) (key ck) precedingUpdates db in
    match err with
    | Some e => (ReturnErr e, tr)
    | None =>
        if isOnlyUpsert keyop then
          match latestVal with
          | Some vv =>
              (Continue (<[ck := set_metadata keyop (Metadata vv)]> txops), tr)
          | None => (Continue txops, tr)
          end
        else
          match latestVal with
          | Some vv =>
              (Continue (<[ck := set_value keyop (Value vv)]> txops), tr)
          | None => (Continue (delete ck txops), tr)
          end
    end.

(** The [range] loop over the map.  Go visits the keys of a map in an order
    it does not specify: [order] is that order.  An entry removed before it
    is reached is not produced. *)
Fixpoint rangeTxOps (precedingUpdates : PubAndHashUpdates) (db : DB)
    (order : list compositeKey) (txops : txOps)
  : (option txOps * option error) * Trace :=
  match order with
  | [] => ((Some txops, None), [])
  | ck :: rest =>
      match txops !! ck with
      | None => rangeTxOps precedingUpdates db rest txops
      | Some keyop =>
          match rangeBody precedingUpdates db ck keyop txops with
          | (Continue txops', tr) =>
              let '(res, tr') := rangeTxOps precedingUpdates db rest txops' in
              (res, (tr ++ tr')%list)
          | (ReturnErr e, tr) => ((None, Some e), tr)
          end
      end
  end.

(** prepareTxOps: the Go pair [(txOps, error)] it returns and the lookups it
    made.  The error of applyTxRwset is not looked at. *)
Definition prepareTxOps (order : list compositeKey) (rwset : TxRwSet)
    (txht : option Height) (precedingUpdates : PubAndHashUpdates) (db : DB)
  : (option txOps * option error) * Trace :=
  let txops : txOps := ∅ in
  let txops := fst (applyTxRwset txops rwset) in
  rangeTxOps precedingUpdates db order txops.

End Preparation.

(** ** Vocabulary of the properties *)

(** The composite key a lookup asks about. *)
Definition lookupKey (l : Lookup) : compositeKey :=
  match l with
  | PubUpdatesGet ns key => mkCompositeKey ns "" key
  | DbGetState ns key => mkCompositeKey ns "" key
  | HashUpdatesGet ns coll key => mkCompositeKey ns coll key
  | DbGetValueHash ns coll keyHash =>
      mkCompositeKey ns coll (string_of_bytes keyHash)
  end.

(** [order] is an order in which [range] may visit [txops]: every key of
    the map, once. *)
Definition RangeOrder (order : list compositeKey) (txops : txOps) : Prop :=
  order ≡ₚ (map_to_list txops).*1.

(** The key hashes of the hashed writes and hashed metadata writes of
    collection [c] of namespace [n] in a write set. *)
Definition hashedKeyHashes (rwset : TxRwSet) (n c : string) : list bytes :=
  flat_map
    (fun nsRWSet =>
       if decide (NameSpace nsRWSet = n) then
         flat_map
           (fun collHashRWset =>
              if decide (CollectionName collHashRWset = c) then
                (KeyHash <$> HashedWrites (HashedRwSet collHashRWset)) ++
                (MetadataKeyHash <$>
                   HashedMetadataWrites (HashedRwSet collHashRWset))
              else [])
           (CollHashedRwSets nsRWSet)
       else [])
    (NsRwSets rwset).

(** The map prepareTxOps holds after [txops.applyTxRwset(rwset)], before the
    loop. *)
Definition populated (SerializeMetadata : list KVMetadataEntry -> bytes * option error)
    (rwset : TxRwSet) : txOps :=
  fst (applyTxRwset SerializeMetadata ∅ rwset).

(** What the preceding-updates index holds for a key: the public updates by
    namespace and key, the hashed updates by namespace, collection and key
    hash. *)
Definition precedingGet (precedingUpdates : PubAndHashUpdates)
    (ns coll key : string) : option VersionedValue :=
  if decide (coll = "") then PubUpdates_Get precedingUpdates ns key
  else HashUpdates_Get precedingUpdates ns coll key.

(** What the persisted state reader answers for a key. *)
Definition persistedGet (db : DB) (ns coll key : string)
  : option VersionedValue * option error :=
  if decide (coll = "") then GetState db ns key
  else GetValueHash db ns coll (bytes_of_string key).

(** The Go pair is a map with a nil error. *)
Definition returnsMap (r : (option txOps * option error) * Trace) : bool :=
  match fst r with
  | (Some _, None) => true
  | _ => false
  end.

(** Two pairs of lookup sources give the same answer to every query. *)
Definition sameAnswers (precedingUpdates1 : PubAndHashUpdates) (db1 : DB)
    (precedingUpdates2 : PubAndHashUpdates) (db2 : DB) : Prop :=
  (forall ns key,
     PubUpdates_Get precedingUpdates1 ns key =
     PubUpdates_Get precedingUpdates2 ns key) /\
  (forall ns coll key,
     HashUpdates_Get precedingUpdates1 ns coll key =
     HashUpdates_Get precedingUpdates2 ns coll key) /\
  (forall ns key, GetState db1 ns key = GetState db2 ns key) /\
  (forall ns coll keyHash,
     GetValueHash db1 ns coll keyHash = GetValueHash db2 ns coll keyHash).

Section Resolution.

Variable precedingUpdates : PubAndHashUpdates.
Variable db : DB.

(** What retrieveLatestState returns for a composite key. *)
Definition latestState (ck : compositeKey)
  : option VersionedValue * option error :=
  fst (retrieveLatestState (ns ck) (coll ck) (key ck) precedingUpdates db).

(** The lookups retrieveLatestState makes for a composite key. *)
Definition latestTrace (ck : compositeKey) : Trace :=
  snd (retrieveLatestState (ns ck) (coll ck) (key ck) precedingUpdates db).

(** The entry is not skipped by the first test of the loop body. *)
Definition needsLookup (keyop : keyOps) : bool :=
  negb (isDelete keyop || isUpsertAndMetadataUpdate keyop).

(** The error one pass of the loop body returns with, if any. *)
Definition entryError (ck : compositeKey) (keyop : keyOps) : option error :=
  if needsLookup keyop then snd (latestState ck) else None.

(** What one pass of the loop body leaves at its key when it does not
    return: the entry, or nothing. *)
Definition entryResult (ck : compositeKey) (keyop : keyOps) : option keyOps :=
  if needsLookup keyop then
    if isOnlyUpsert keyop then
      match fst (latestState ck) with
      | Some vv => Some (set_metadata keyop (Metadata vv))
      | None => Some keyop
      end
    else
      match fst (latestState ck) with
      | Some vv => Some (set_value keyop (Value vv))
      | None => None
      end
  else Some keyop.

(** The lookups of one pass of the loop body. *)
Definition entryTrace (ck : compositeKey) (keyop : keyOps) : Trace :=
  if needsLookup keyop then latestTrace ck else [].

(** The first error met when the entries of [txops] are visited in
    [order]. *)
Fixpoint firstError (order : list compositeKey) (txops : txOps)
  : option error :=
  match order with
  | [] => None
  | ck :: rest =>
      match txops !! ck ≫= entryError ck with
      | Some e => Some e
      | None => firstError rest txops
      end
  end.

(** The lookups made when the entries of [txops] are visited in [order],
    up to the first error. *)
Fixpoint rangeTrace (order : list compositeKey) (txops : txOps) : Trace :=
  match order with
  | [] => []
  | ck :: rest =>
      match txops !! ck with
      | None => rangeTrace rest txops
      | Some keyop =>
          (entryTrace ck keyop ++
           match entryError ck keyop with
           | Some _ => []
           | None => rangeTrace rest txops
           end)%list
      end
  end.

(** The map the loop ends with when it visits [order] without error. *)
Definition resolvedMap (order : list compositeKey) (txops : txOps) : txOps :=
  map_imap
    (fun ck keyop =>
       if decide (ck ∈ order) then entryResult ck keyop else Some keyop)
    txops.

End Resolution.

(** ** Shapes of the populated entries *)

(** A field the transaction did not set holds nothing. *)
Definition fieldsMatchShape (keyop : keyOps) : Prop :=
  (valueTouched keyop = false -> value keyop = None) /\
  (metadataTouch keyop <> MetadataTouched -> metadata keyop = None).

(** An entry is in the map because some write of the transaction put it
    there. *)
Definition somethingTouched (keyop : keyOps) : Prop :=
  deleted keyop = true \/ valueTouched keyop = true \/
  metadataTouch keyop <> MetadataUntouched.

Definition wellShaped (keyop : keyOps) : Prop :=
  fieldsMatchShape keyop /\ somethingTouched keyop.

(** A hashed key of the map comes from a hashed write of the write set. *)
Definition fromHashedWrite (rwset : TxRwSet) (ck : compositeKey) : Prop :=
  coll ck = "" \/
  exists keyHash,
    keyHash ∈ hashedKeyHashes rwset (ns ck) (coll ck) /\
    key ck = string_of_bytes keyHash.

(** Every key of the map has the given origin and every entry is well
    shaped. *)
Definition populatedInv (origin : compositeKey -> Prop) (txops : txOps)
  : Prop :=
  map_Forall (fun ck keyop => origin ck /\ wellShaped keyop) txops.

(** The value of an output entry [keyop'] is resolved: it is the value the
    transaction wrote (the one of the populated entry [keyop]), or the value
    of the latest state. *)
Definition valueResolved (latestVal : option VersionedValue)
    (keyop keyop' : keyOps) : Prop :=
  (valueTouched keyop = true /\ value keyop' = value keyop) \/
  (valueTouched keyop = false /\
   exists vv, latestVal = Some vv /\ value keyop' = Value vv).

(** The metadata of an output entry [keyop'] is resolved: it is the metadata
    the transaction wrote, or absent because the transaction cleared it, or
    the metadata of the latest state (none when there is no such state). *)
Definition metadataResolved (latestVal : option VersionedValue)
    (keyop keyop' : keyOps) : Prop :=
  match metadataTouch keyop with
  | MetadataTouched => metadata keyop' = metadata keyop
  | MetadataCleared => metadata keyop' = None
  | MetadataUntouched =>
      metadata keyop' =
      match latestVal with Some vv => Metadata vv | None => None end
  end.

(** ** A block of scenarios *)

Module Scenario.

(** A codec that refuses a name that is not UTF-8: one holding the byte
    0xff. *)
Definition codec (entries : list KVMetadataEntry) : bytes * option error :=
  if forallb
       (fun e => forallb (fun b => negb (Byte.eqb b xff))
                         (list_byte_of_string (Name e)))
       entries
  then
    (Some (flat_map
             (fun e => list_byte_of_string (Name e) ++ content (EntryValue e))
             entries), None)
  else (None, Some (EncodingError "proto: invalid UTF-8 string")).

Definition v1 : bytes := Some [x76; x31].
Definition vh1 : bytes := Some [x76; x68; x31].
Definition ownerX : bytes := Some [x6f; x77; x6e; x65; x72; x3d; x78].
Definition H : bytes := Some [x01; xfe; x00; x80].
Definition H2 : bytes := Some [xc3; x28].
Definition endorsers : list KVMetadataEntry :=
  [mkKVMetadataEntry "VALIDATION_PARAMETER" (Some [x01])].

(** One transaction: a metadata-only write of "a", a value-only write of
    "b", a delete of "c", a value and a metadata write of "d", a
    metadata-only write of "e", and in collection "coll1" a hashed
    value-only write of [H2] and a hashed metadata-only write of [H]. *)
Definition rwset : TxRwSet :=
  mkTxRwSet
    [mkNsRwSet "ns1"
       (mkKVRWSet
          [mkKVWrite "b" false v1;
           mkKVWrite "c" true None;
           mkKVWrite "d" false v1]
          [mkKVMetadataWrite "a" (Some endorsers);
           mkKVMetadataWrite "d" (Some endorsers);
           mkKVMetadataWrite "e" (Some endorsers)])
       [mkCollHashedRwSet "coll1"
          (mkHashedRWSet
             [mkKVWriteHash H2 false vh1]
             [mkKVMetadataWriteHash H (Some endorsers)])]].

(** The block so far: "c" was written, "e" was deleted (a record without a
    value), and the hashed key [H] of "coll1" holds [vh1]. *)
Definition precedingUpdates : PubAndHashUpdates :=
  mkPubAndHashUpdates
    (fun ns key =>
       if String.eqb ns "ns1" && String.eqb key "c" then
         Some (mkVersionedValue v1 ownerX (Some (mkHeight 7 0)))
       else if String.eqb ns "ns1" && String.eqb key "e" then
         Some (mkVersionedValue None None (Some (mkHeight 7 1)))
       else None)
    (fun ns coll key =>
       if String.eqb ns "ns1" && String.eqb coll "coll1" &&
          String.eqb key (string_of_bytes H) then
         Some (mkVersionedValue vh1 None (Some (mkHeight 7 2)))
       else None).

(** The persisted state: "b" and "c" of "ns1". *)
Definition db : DB :=
  mkDB
    (fun ns key =>
       if String.eqb ns "ns1" && String.eqb key "b" then
         (Some (mkVersionedValue (Some [x76; x30]) ownerX
                  (Some (mkHeight 3 4))), None)
       else if String.eqb ns "ns1" && String.eqb key "c" then
         (Some (mkVersionedValue (Some [x76; x30]) None
                  (Some (mkHeight 3 5))), None)
       else (None, None))
    (fun ns coll keyHash => (None, None)).

(** A persisted state whose reads fail. *)
Definition brokenDb : DB :=
  mkDB (fun ns key => (None, Some (StorageError "leveldb: closed")))
       (fun ns coll keyHash => (None, Some (StorageError "leveldb: closed"))).

Definition order : list compositeKey :=
  (map_to_list (populated codec rwset)).*1.

Definition run : (option txOps * option error) * Trace :=
  prepareTxOps codec order rwset None precedingUpdates db.

Definition output : txOps := default ∅ (fst (fst run)).

Definition trace : Trace := snd run.

(** Entries the codec refuses. *)
Definition malformed : list KVMetadataEntry :=
  [mkKVMetadataEntry (string_of_list_byte [xff]) None].

(** A transaction whose only write is a metadata write that the codec
    refuses. *)
Definition malformedRwset : TxRwSet :=
  mkTxRwSet
    [mkNsRwSet "ns1" (mkKVRWSet [] [mkKVMetadataWrite "a" (Some malformed)])
       []].

(** The entries of the populated map and their keys. *)
Definition keyA : compositeKey := mkCompositeKey "ns1" "" "a".
Definition keyB : compositeKey := mkCompositeKey "ns1" "" "b".
Definition keyC : compositeKey := mkCompositeKey "ns1" "" "c".
Definition keyD : compositeKey := mkCompositeKey "ns1" "" "d".
Definition keyE : compositeKey := mkCompositeKey "ns1" "" "e".
Definition keyH : compositeKey :=
  mkCompositeKey "ns1" "coll1" (string_of_bytes H).

Definition metadataOnly : keyOps :=
  mkKeyOps false false MetadataTouched None (fst (codec endorsers)).
Definition valueOnly : keyOps :=
  mkKeyOps false true MetadataUntouched v1 None.
Definition deleteOnly : keyOps :=
  mkKeyOps true false MetadataUntouched None None.
Definition valueAndMetadata : keyOps :=
  mkKeyOps false true MetadataTouched v1 (fst (codec endorsers)).

End Scenario.

(** ** Keys and lookups of a whole run *)

(** The composite keys the loop over one [collHashRWset] passes to
    applyKVWrite and applyMetadata: the key hashes, as strings, of its
    hashed writes and hashed metadata writes. *)
Definition collWrittenKeys (n : string) (collHashRWset : CollHashedRwSet)
  : list compositeKey :=
  let c := CollectionName collHashRWset in
  ((fun w => mkCompositeKey n c (string_of_bytes (KeyHash w))) <$>
     HashedWrites (HashedRwSet collHashRWset)) ++
  ((fun w => mkCompositeKey n c (string_of_bytes (MetadataKeyHash w))) <$>
     HashedMetadataWrites (HashedRwSet collHashRWset)).

(** The composite keys the loop over one [nsRWSet] passes to applyKVWrite
    and applyMetadata: the keys of its public writes and public metadata
    writes, then those of its collections. *)
Definition nsWrittenKeys (nsRWSet : NsRwSet) : list compositeKey :=
  let n := NameSpace nsRWSet in
  ((fun w => mkCompositeKey n "" (Key w)) <$> Writes (KvRwSet nsRWSet)) ++
  ((fun w => mkCompositeKey n "" (MetadataKey w)) <$>
     MetadataWrites (KvRwSet nsRWSet)) ++
  flat_map (collWrittenKeys n) (CollHashedRwSets nsRWSet).

(** The composite keys applyTxRwset passes to applyKVWrite and
    applyMetadata. *)
Definition writtenKeys (rwset : TxRwSet) : list compositeKey :=
  flat_map nsWrittenKeys (NsRwSets rwset).

(** The call retrieveLatestState makes on the preceding-updates index for a
    composite key. *)
Definition indexLookup (ck : compositeKey) : Lookup :=
  if decide (coll ck = "") then PubUpdatesGet (ns ck) (key ck)
  else HashUpdatesGet (ns ck) (coll ck) (key ck).

(** The call retrieveLatestState makes on the persisted state reader for a
    composite key, when it makes one. *)
Definition dbLookup (ck : compositeKey) : Lookup :=
  if decide (coll ck = "") then DbGetState (ns ck) (key ck)
  else DbGetValueHash (ns ck) (coll ck) (bytes_of_string (key ck)).

(** ** Further scenarios *)

Module Cases.

(** Preceding updates that hold a value for every key. *)
Definition coveringUpdates : PubAndHashUpdates :=
  mkPubAndHashUpdates
    (fun ns key =>
       Some (mkVersionedValue Scenario.v1 Scenario.ownerX
               (Some (mkHeight 9 0))))
    (fun ns coll key =>
       Some (mkVersionedValue Scenario.vh1 None (Some (mkHeight 9 1)))).

(** A transaction that needs no merge: a delete of "c", a value and a
    metadata write of "d", a value write of "f" whose metadata it clears,
    and a hashed delete of [H] in "coll1". *)
Definition settledRwset : TxRwSet :=
  mkTxRwSet
    [mkNsRwSet "ns1"
       (mkKVRWSet
          [mkKVWrite "c" true None;
           mkKVWrite "d" false Scenario.v1;
           mkKVWrite "f" false Scenario.v1]
          [mkKVMetadataWrite "d" (Some Scenario.endorsers);
           mkKVMetadataWrite "f" None])
       [mkCollHashedRwSet "coll1"
          (mkHashedRWSet [mkKVWriteHash Scenario.H true None] [])]].

Definition settledOrder : list compositeKey :=
  (map_to_list (populated Scenario.codec settledRwset)).*1.

(** The persisted state of the scenarios with one more key, "z" of "ns2",
    and with failing reads of collection "coll9". *)
Definition otherDb : DB :=
  mkDB
    (fun ns key =>
       if String.eqb ns "ns2" && String.eqb key "z" then
         (Some (mkVersionedValue Scenario.v1 None (Some (mkHeight 1 1))), None)
       else GetState Scenario.db ns key)
    (fun ns coll keyHash =>
       if String.eqb coll "coll9" then
         (None, Some (StorageError "leveldb: closed"))
       else GetValueHash Scenario.db ns coll keyHash).

(** A transaction that only reads: two namespaces, one with a collection,
    and no write. *)
Definition readOnlyRwset : TxRwSet :=
  mkTxRwSet
    [mkNsRwSet "ns1" (mkKVRWSet [] [])
       [mkCollHashedRwSet "coll1" (mkHashedRWSet [] [])];
     mkNsRwSet "ns2" (mkKVRWSet [] []) []].

(** The read of the persisted state for the hashed key [H2] of "coll1". *)
Definition readH2 : Lookup := DbGetValueHash "ns1" "coll1" Scenario.H2.

End Cases.

(** ** The loop of prepareTxOps, entry by entry *)

Section ResolutionFacts.

Variable precedingUpdates : PubAndHashUpdates.
Variable db : DB.

Lemma partial_alter_Some (ck : compositeKey) (keyop : keyOps) (txops : txOps) :
  partial_alter (fun _ => Some keyop) ck txops = <[ck := keyop]> txops.
Proof. reflexivity. Qed.

Lemma partial_alter_None (ck : compositeKey) (txops : txOps) :
  partial_alter (fun _ => None) ck txops = delete ck txops.
Proof. reflexivity. Qed.

Lemma rangeBody_spec (ck : compositeKey) (keyop : keyOps) (txops : txOps) :
  txops !! ck = Some keyop ->
  rangeBody precedingUpdates db ck keyop txops =
  (match entryError precedingUpdates db ck keyop with
   | Some e => ReturnErr e
   | None =>
       Continue
         (partial_alter
            (fun _ => entryResult precedingUpdates db ck keyop) ck txops)
   end,
   entryTrace precedingUpdates db ck keyop).
Proof.
  intros Hck.
  pose proof (insert_id txops ck keyop Hck) as Hid.
  unfold rangeBody, entryError, entryResult, entryTrace, needsLookup,
    latestState, latestTrace.
  destruct (isDelete keyop || isUpsertAndMetadataUpdate keyop); simpl.
  { by rewrite partial_alter_Some, Hid. }
  destruct (retrieveLatestState (ns ck) (coll ck) (key ck)
              precedingUpdates db) as [[latestVal err] tr]; simpl.
  destruct err as [e|]; [done|].
  destruct (isOnlyUpsert keyop), latestVal as [vv|];
    rewrite ?partial_alter_Some, ?partial_alter_None, ?Hid; done.
Qed.

Lemma resolvedMap_nil (txops : txOps) :
  resolvedMap precedingUpdates db [] txops = txops.
Proof.
  apply map_eq; intros i. unfold resolvedMap. rewrite map_lookup_imap.
  destruct (txops !! i); [|done].
  unfold mbind, option_bind. rewrite decide_False; [done|]. apply not_elem_of_nil.
Qed.

Lemma resolvedMap_cons_absent ck rest (txops : txOps) :
  txops !! ck = None ->
  resolvedMap precedingUpdates db (ck :: rest) txops =
  resolvedMap precedingUpdates db rest txops.
Proof.
  intros Hck. apply map_eq; intros i. unfold resolvedMap.
  rewrite !map_lookup_imap.
  destruct (txops !! i) as [keyop|] eqn:Hi; simpl; [|done].
  assert (i ≠ ck) by congruence.
  destruct (decide (i ∈ rest)) as [Hin|Hin].
  - by rewrite decide_True by (by apply list_elem_of_further).
  - by rewrite decide_False by (by apply not_elem_of_cons).
Qed.

Lemma resolvedMap_cons_present ck keyop rest (txops : txOps) :
  txops !! ck = Some keyop ->
  ck ∉ rest ->
  resolvedMap precedingUpdates db rest
    (partial_alter (fun _ => entryResult precedingUpdates db ck keyop)
                   ck txops) =
  resolvedMap precedingUpdates db (ck :: rest) txops.
Proof.
  intros Hck Hnotin. apply map_eq; intros i. unfold resolvedMap.
  rewrite !map_lookup_imap.
  destruct (decide (i = ck)) as [->|Hne].
  - rewrite lookup_partial_alter_eq, Hck; simpl.
    rewrite decide_True by apply list_elem_of_here.
    destruct (entryResult precedingUpdates db ck keyop); simpl; [|done].
    by rewrite decide_False.
  - rewrite lookup_partial_alter_ne by done.
    destruct (txops !! i); simpl; [|done].
    destruct (decide (i ∈ rest)) as [Hin|Hin].
    + by rewrite decide_True by (by apply list_elem_of_further).
    + by rewrite decide_False by (by apply not_elem_of_cons).
Qed.

Lemma firstError_partial_alter f ck rest (txops : txOps) :
  ck ∉ rest ->
  firstError precedingUpdates db rest (partial_alter f ck txops) =
  firstError precedingUpdates db rest txops.
Proof.
  induction rest as [|ck' rest IH]; intros Hnotin; simpl; [done|].
  apply not_elem_of_cons in Hnotin as [Hne Hnotin].
  rewrite lookup_partial_alter_ne by done.
  by rewrite IH.
Qed.

Lemma rangeTrace_partial_alter f ck rest (txops : txOps) :
  ck ∉ rest ->
  rangeTrace precedingUpdates db rest (partial_alter f ck txops) =
  rangeTrace precedingUpdates db rest txops.
Proof.
  induction rest as [|ck' rest IH]; intros Hnotin; simpl; [done|].
  apply not_elem_of_cons in Hnotin as [Hne Hnotin].
  rewrite lookup_partial_alter_ne by done.
  by rewrite IH.
Qed.

(** The loop, in closed form: it returns the first error met, or every
    visited entry merged; and it makes the lookups of the visited entries,
    up to the first error. *)
Lemma rangeTxOps_spec (order : list compositeKey) (txops : txOps) :
  NoDup order ->
  rangeTxOps precedingUpdates db order txops =
  (match firstError precedingUpdates db order txops with
   | Some e => (None, Some e)
   | None => (Some (resolvedMap precedingUpdates db order txops), None)
   end,
   rangeTrace precedingUpdates db order txops).
Proof.
  revert txops. induction order as [|ck rest IH]; intros txops Hnd; simpl.
  { by rewrite resolvedMap_nil. }
  apply NoDup_cons in Hnd as [Hnotin Hnd].
  destruct (txops !! ck) as [keyop|] eqn:Hck; simpl.
  - rewrite (rangeBody_spec ck keyop txops Hck).
    destruct (entryError precedingUpdates db ck keyop) as [e|].
    { by rewrite app_nil_r. }
    rewrite (IH _ Hnd), firstError_partial_alter, rangeTrace_partial_alter
      by done.
    by rewrite (resolvedMap_cons_present ck keyop rest txops Hck Hnotin).
  - rewrite (IH _ Hnd). by rewrite (resolvedMap_cons_absent ck rest txops Hck).
Qed.

End ResolutionFacts.

(** ** Visiting orders *)

Lemma RangeOrder_NoDup (order : list compositeKey) (txops : txOps) :
  RangeOrder order txops -> NoDup order.
Proof.
  unfold RangeOrder. intros ->. apply NoDup_fst_map_to_list.
Qed.

Lemma RangeOrder_elem_of (order : list compositeKey) (txops : txOps) ck :
  RangeOrder order txops -> ck ∈ order <-> is_Some (txops !! ck).
Proof.
  unfold RangeOrder. intros ->. rewrite list_elem_of_fmap. split.
  - intros [[ck' keyop] [-> Hin]]. apply elem_of_map_to_list in Hin. eauto.
  - intros [keyop Hck]. exists (ck, keyop). split; [done|].
    by apply elem_of_map_to_list.
Qed.

Lemma RangeOrder_keys (txops : txOps) :
  RangeOrder (map_to_list txops).*1 txops.
Proof. unfold RangeOrder. reflexivity. Qed.

Section WholeLoop.

Variable SerializeMetadata : list KVMetadataEntry -> bytes * option error.
Variable precedingUpdates : PubAndHashUpdates.
Variable db : DB.

Lemma resolvedMap_lookup order (txops : txOps) ck :
  RangeOrder order txops ->
  resolvedMap precedingUpdates db order txops !! ck =
  txops !! ck ≫= entryResult precedingUpdates db ck.
Proof.
  intros Hord. unfold resolvedMap. rewrite map_lookup_imap.
  destruct (txops !! ck) as [keyop|] eqn:Hck; simpl; [|done].
  rewrite decide_True; [done|].
  apply (RangeOrder_elem_of order txops ck Hord). eauto.
Qed.

Lemma firstError_Some order (txops : txOps) e :
  firstError precedingUpdates db order txops = Some e ->
  exists ck keyop,
    ck ∈ order /\ txops !! ck = Some keyop /\
    entryError precedingUpdates db ck keyop = Some e.
Proof.
  induction order as [|ck rest IH]; simpl; [done|].
  destruct (txops !! ck) as [keyop|] eqn:Hck; simpl.
  - destruct (entryError precedingUpdates db ck keyop) as [e'|] eqn:He.
    + intros [= ->]. exists ck, keyop. split; [apply list_elem_of_here|done].
    + intros (ck' & keyop' & Hin & Hck' & He')%IH.
      exists ck', keyop'. split; [by apply list_elem_of_further|done].
  - intros (ck' & keyop' & Hin & Hck' & He')%IH.
    exists ck', keyop'. split; [by apply list_elem_of_further|done].
Qed.

Lemma firstError_None order (txops : txOps) ck keyop :
  firstError precedingUpdates db order txops = None ->
  ck ∈ order -> txops !! ck = Some keyop ->
  entryError precedingUpdates db ck keyop = None.
Proof.
  induction order as [|ck' rest IH]; simpl.
  { intros _ Hin. by apply not_elem_of_nil in Hin. }
  intros Hfirst [<-|Hin]%elem_of_cons Hck.
  - rewrite Hck in Hfirst. simpl in Hfirst.
    by destruct (entryError precedingUpdates db ck keyop).
  - destruct (txops !! ck' ≫= entryError precedingUpdates db ck');
      [done|by apply IH].
Qed.

(** prepareTxOps in closed form. *)
Lemma prepareTxOps_spec order rwset txht :
  RangeOrder order (populated SerializeMetadata rwset) ->
  prepareTxOps SerializeMetadata order rwset txht precedingUpdates db =
  (match firstError precedingUpdates db order
           (populated SerializeMetadata rwset) with
   | Some e => (None, Some e)
   | None =>
       (Some (resolvedMap precedingUpdates db order
                (populated SerializeMetadata rwset)), None)
   end,
   rangeTrace precedingUpdates db order (populated SerializeMetadata rwset)).
Proof.
  intros Hord. unfold prepareTxOps.
  apply rangeTxOps_spec. by eapply RangeOrder_NoDup.
Qed.

(** When prepareTxOps returns a map, every entry of the populated map went
    through the loop body without error, and the map holds what the body
    left. *)
Lemma prepareTxOps_success order rwset txht m tr :
  RangeOrder order (populated SerializeMetadata rwset) ->
  prepareTxOps SerializeMetadata order rwset txht precedingUpdates db =
    ((Some m, None), tr) ->
  forall ck,
    m !! ck =
      populated SerializeMetadata rwset !! ck
        ≫= entryResult precedingUpdates db ck /\
    forall keyop,
      populated SerializeMetadata rwset !! ck = Some keyop ->
      entryError precedingUpdates db ck keyop = None.
Proof.
  intros Hord Hrun ck.
  rewrite (prepareTxOps_spec order rwset txht Hord) in Hrun.
  destruct (firstError precedingUpdates db order
              (populated SerializeMetadata rwset)) as [e|] eqn:Hfirst;
    [done|].
  injection Hrun as <- _. split.
  - by apply resolvedMap_lookup.
  - intros keyop Hck. eapply firstError_None; [done| |done].
    apply (RangeOrder_elem_of _ _ ck Hord). eauto.
Qed.

End WholeLoop.

(** ** Lookup priority *)

Lemma retrieveLatestState_fallback precedingUpdates db ns coll key :
  precedingGet precedingUpdates ns coll key = None ->
  fst (retrieveLatestState ns coll key precedingUpdates db) =
    persistedGet db ns coll key /\
  Exists (fun l => isDbLookup l = true)
         (snd (retrieveLatestState ns coll key precedingUpdates db)).
Proof.
  unfold precedingGet, persistedGet, retrieveLatestState.
  destruct (decide (coll = "")); intros ->; simpl;
    (split; [done|]); apply Exists_cons_tl, Exists_cons_hd; done.
Qed.

(** C2: when the preceding-updates index holds a versioned value for the
    key (public updates by namespace and key, hashed updates by namespace,
    collection and key hash), retrieveLatestState returns that value with a
    nil error, whatever the persisted state holds, and no call is made on
    the persisted state reader; hence the reader is called only when the
    index reports absence. *)
Theorem retrieveLatestState_precedence precedingUpdates db ns coll key vv :
  precedingGet precedingUpdates ns coll key = Some vv ->
  fst (retrieveLatestState ns coll key precedingUpdates db) = (Some vv, None)
  /\ Forall (fun l => isDbLookup l = false)
            (snd (retrieveLatestState ns coll key precedingUpdates db)).
Proof.
  unfold precedingGet, retrieveLatestState.
  destruct (decide (coll = "")); intros ->; simpl;
    (split; [done|]); repeat constructor.
Qed.

Lemma retrieveLatestState_precedence_witness :
  fst (retrieveLatestState "ns1" "" "c" Scenario.precedingUpdates Scenario.db)
  = (Some (mkVersionedValue Scenario.v1 Scenario.ownerX
             (Some (mkHeight 7 0))), None)
  /\ Forall (fun l => isDbLookup l = false)
       (snd (retrieveLatestState "ns1" "" "c"
               Scenario.precedingUpdates Scenario.db)).
Proof.
  apply (retrieveLatestState_precedence
           Scenario.precedingUpdates Scenario.db "ns1" "" "c").
  reflexivity.
Defined.

(** ** Errors of the metadata codec *)

Lemma applyTxRwset_returns_nil SerializeMetadata txops rwset :
  snd (applyTxRwset SerializeMetadata txops rwset) = None.
Proof. reflexivity. Qed.

(** C1 (the code departs from it): the codec refuses the entries of the
    only metadata write of the transaction, applyMetadata returns the
    EncodingError, and prepareTxOps still returns a map, empty, with a nil
    error. *)
Theorem prepareTxOps_drops_EncodingError :
  applyMetadata Scenario.codec ∅ "ns1" ""
    (mkKVMetadataWrite "a" (Some Scenario.malformed)) =
    (∅, Some (EncodingError "proto: invalid UTF-8 string")) /\
  RangeOrder [] (populated Scenario.codec Scenario.malformedRwset) /\
  prepareTxOps Scenario.codec [] Scenario.malformedRwset None
    Scenario.precedingUpdates Scenario.db = ((Some ∅, None), []).
Proof.
  split; [reflexivity|]. split; [|reflexivity].
  unfold RangeOrder. vm_compute. reflexivity.
Qed.

(** ** What applyTxRwset leaves in the map *)

Lemma fold_left_invariant {A B : Type} (P : A -> Prop) (f : A -> B -> A)
    (l : list B) (a : A) :
  P a -> (forall a x, x ∈ l -> P a -> P (f a x)) -> P (fold_left f l a).
Proof.
  revert a. induction l as [|x l IH]; intros a Ha Hstep; simpl; [done|].
  apply IH.
  - apply Hstep; [apply list_elem_of_here|done].
  - intros a' x' Hin. apply Hstep. by apply list_elem_of_further.
Qed.

Lemma hashedKeyHashes_intro rwset nsRWSet collHashRWset keyHash :
  nsRWSet ∈ NsRwSets rwset ->
  collHashRWset ∈ CollHashedRwSets nsRWSet ->
  keyHash ∈ (KeyHash <$> HashedWrites (HashedRwSet collHashRWset)) ++
            (MetadataKeyHash <$>
               HashedMetadataWrites (HashedRwSet collHashRWset)) ->
  keyHash ∈ hashedKeyHashes rwset (NameSpace nsRWSet)
              (CollectionName collHashRWset).
Proof.
  intros Hns Hcoll Hkh. unfold hashedKeyHashes.
  apply list_elem_of_In, in_flat_map. exists nsRWSet.
  split; [by apply list_elem_of_In|].
  rewrite decide_True by done.
  apply in_flat_map. exists collHashRWset.
  split; [by apply list_elem_of_In|].
  rewrite decide_True by done. by apply list_elem_of_In.
Qed.

Section Populated.

Variable SerializeMetadata : list KVMetadataEntry -> bytes * option error.

(** Where the keys of the map may come from. *)
Variable origin : compositeKey -> Prop.

Lemma getOrCreateKeyEntry_shape txops k :
  populatedInv origin txops -> fieldsMatchShape (getOrCreateKeyEntry txops k).
Proof.
  intros Hinv. unfold getOrCreateKeyEntry.
  destruct (txops !! k) as [keyop|] eqn:Hk; simpl.
  - by destruct (Hinv k keyop Hk) as [_ [Hshape _]].
  - by split.
Qed.

Lemma applyKVWrite_inv txops ns coll kvWrite :
  populatedInv origin txops ->
  origin (mkCompositeKey ns coll (Key kvWrite)) ->
  populatedInv origin (applyKVWrite txops ns coll kvWrite).
Proof.
  intros Hinv Horigin.
  destruct (getOrCreateKeyEntry_shape txops
              (mkCompositeKey ns coll (Key kvWrite)) Hinv) as [Hv Hmd].
  unfold applyKVWrite, delete_key, upsert.
  destruct (IsDelete kvWrite); apply map_Forall_insert_2; try done;
    (split; [done|]); split.
  - by split.
  - by left.
  - split; simpl; [done|exact Hmd].
  - right. by left.
Qed.

Lemma applyMetadata_inv txops ns coll metadataWrite :
  populatedInv origin txops ->
  origin (mkCompositeKey ns coll (MetadataKey metadataWrite)) ->
  populatedInv origin (fst (applyMetadata SerializeMetadata txops ns coll
                       metadataWrite)).
Proof.
  intros Hinv Horigin.
  destruct (getOrCreateKeyEntry_shape txops
              (mkCompositeKey ns coll (MetadataKey metadataWrite)) Hinv)
    as [Hv Hmd].
  unfold applyMetadata, metadataDelete, metadataUpdate.
  destruct (Entries metadataWrite) as [entries|].
  - destruct (SerializeMetadata entries) as [metadataBytes [e|]]; simpl;
      [done|].
    apply map_Forall_insert_2; [|done].
    split; [done|]. split.
    + split; simpl; [exact Hv|done].
    + right. by right.
  - simpl. apply map_Forall_insert_2; [|done].
    split; [done|]. split.
    + split; simpl; [exact Hv|done].
    + right. by right.
Qed.

End Populated.

Lemma populated_inv SerializeMetadata rwset :
  populatedInv (fromHashedWrite rwset) (populated SerializeMetadata rwset).
Proof.
  unfold populated, applyTxRwset; simpl.
  apply fold_left_invariant; [apply map_Forall_empty|].
  intros txops nsRWSet HnsIn Hinv. unfold applyNsRwSet.
  apply fold_left_invariant.
  { apply fold_left_invariant.
    - apply fold_left_invariant; [done|].
      intros txops' kvWrite _ Hinv'.
      apply applyKVWrite_inv; [done|by left].
    - intros txops' kvMetadataWrite _ Hinv'.
      apply applyMetadata_inv; [done|by left]. }
  intros txops' collHashRWset HcollIn Hinv'. unfold applyCollHashedRwSet.
  apply fold_left_invariant.
  - apply fold_left_invariant; [done|].
    intros txops'' hashedWrite HwIn Hinv''.
    apply applyKVWrite_inv; [done|]. right; simpl.
    exists (KeyHash hashedWrite). split; [|done].
    apply hashedKeyHashes_intro; [done..|].
    apply elem_of_app. left. by apply list_elem_of_fmap_2.
  - intros txops'' metadataWrite HwIn Hinv''.
    apply applyMetadata_inv; [done|]. right; simpl.
    exists (MetadataKeyHash metadataWrite). split; [|done].
    apply hashedKeyHashes_intro; [done..|].
    apply elem_of_app. right. by apply list_elem_of_fmap_2.
Qed.

Lemma populated_wellShaped SerializeMetadata rwset ck keyop :
  populated SerializeMetadata rwset !! ck = Some keyop -> wellShaped keyop.
Proof.
  intros Hck.
  by destruct (populated_inv SerializeMetadata rwset ck keyop Hck).
Qed.

(** ** The lookups of the loop *)

Section Lookups.

Variable precedingUpdates : PubAndHashUpdates.
Variable db : DB.

Lemma latestState_sources ck :
  latestState precedingUpdates db ck =
  match precedingGet precedingUpdates (ns ck) (coll ck) (key ck) with
  | Some vv => (Some vv, None)
  | None => persistedGet db (ns ck) (coll ck) (key ck)
  end.
Proof.
  unfold latestState, retrieveLatestState, precedingGet, persistedGet.
  destruct (decide (coll ck = "")).
  - by destruct (PubUpdates_Get precedingUpdates (ns ck) (key ck)).
  - by destruct (HashUpdates_Get precedingUpdates (ns ck) (coll ck) (key ck)).
Qed.

Lemma string_of_bytes_of_string s :
  string_of_bytes (bytes_of_string s) = s.
Proof. apply string_of_list_byte_of_string. Qed.

Lemma latestTrace_lookupKey ck l :
  l ∈ latestTrace precedingUpdates db ck -> lookupKey l = ck.
Proof.
  unfold latestTrace, retrieveLatestState. destruct ck as [n c k]; simpl.
  destruct (decide (c = "")) as [->|Hc].
  - destruct (PubUpdates_Get precedingUpdates n k); simpl;
      rewrite ?elem_of_cons, elem_of_nil; intros Hl;
      by destruct_or!; subst l.
  - destruct (HashUpdates_Get precedingUpdates n c k); simpl;
      rewrite ?elem_of_cons, elem_of_nil; intros Hl;
      destruct_or!; subst l; simpl; try done.
    by rewrite string_of_bytes_of_string.
Qed.

Lemma latestTrace_DbGetValueHash ck n c keyHash :
  DbGetValueHash n c keyHash ∈ latestTrace precedingUpdates db ck ->
  n = ns ck /\ c = coll ck /\ keyHash = bytes_of_string (key ck) /\
  coll ck <> "".
Proof.
  unfold latestTrace, retrieveLatestState.
  destruct (decide (coll ck = "")) as [Hc|Hc].
  - destruct (PubUpdates_Get precedingUpdates (ns ck) (key ck)); simpl;
      rewrite ?elem_of_cons, elem_of_nil; intros Hl; by destruct_or!.
  - destruct (HashUpdates_Get precedingUpdates (ns ck) (coll ck) (key ck));
      simpl; rewrite ?elem_of_cons, elem_of_nil; intros Hl;
      destruct_or!; try done.
    by injection Hl as -> -> ->.
Qed.

Lemma entryError_Some ck keyop e :
  entryError precedingUpdates db ck keyop = Some e ->
  needsLookup keyop = true /\ snd (latestState precedingUpdates db ck) = Some e.
Proof.
  unfold entryError. by destruct (needsLookup keyop).
Qed.

Lemma rangeTrace_elem order (txops : txOps) l :
  l ∈ rangeTrace precedingUpdates db order txops ->
  exists ck keyop,
    txops !! ck = Some keyop /\ needsLookup keyop = true /\
    l ∈ latestTrace precedingUpdates db ck.
Proof.
  induction order as [|ck rest IH]; simpl.
  { intros Hl. by apply elem_of_nil in Hl. }
  destruct (txops !! ck) as [keyop|] eqn:Hck; [|done].
  intros [Hl|Hl]%elem_of_app.
  - unfold entryTrace in Hl.
    destruct (needsLookup keyop) eqn:Hneeds;
      [by exists ck, keyop | by apply elem_of_nil in Hl].
  - destruct (entryError precedingUpdates db ck keyop);
      [by apply elem_of_nil in Hl | by apply IH].
Qed.

Lemma firstError_trace order (txops : txOps) e :
  firstError precedingUpdates db order txops = Some e ->
  exists ck keyop tr0,
    txops !! ck = Some keyop /\ needsLookup keyop = true /\
    snd (latestState precedingUpdates db ck) = Some e /\
    rangeTrace precedingUpdates db order txops =
      tr0 ++ latestTrace precedingUpdates db ck.
Proof.
  induction order as [|ck rest IH]; simpl; [done|].
  destruct (txops !! ck) as [keyop|] eqn:Hck; simpl; [|done].
  destruct (entryError precedingUpdates db ck keyop) as [e'|] eqn:He.
  - intros [= ->]. apply entryError_Some in He as [Hneeds He].
    exists ck, keyop, []. unfold entryTrace. rewrite Hneeds.
    by rewrite app_nil_r.
  - intros (ck' & keyop' & tr0 & Hck' & Hneeds & He' & ->)%IH.
    exists ck', keyop', (entryTrace precedingUpdates db ck keyop ++ tr0).
    by rewrite app_assoc.
Qed.

End Lookups.

(** ** The merge, entry by entry *)

Section Merge.

Variable SerializeMetadata : list KVMetadataEntry -> bytes * option error.
Variable precedingUpdates : PubAndHashUpdates.
Variable db : DB.

(** An entry that is neither a delete, nor set in full, nor a value-only
    write ends as the latest state decides. *)
Lemma metadata_only_lookup order rwset txht m tr ck keyop :
  RangeOrder order (populated SerializeMetadata rwset) ->
  prepareTxOps SerializeMetadata order rwset txht precedingUpdates db =
    ((Some m, None), tr) ->
  populated SerializeMetadata rwset !! ck = Some keyop ->
  isDelete keyop = false ->
  isUpsertAndMetadataUpdate keyop = false ->
  isOnlyUpsert keyop = false ->
  m !! ck =
    match fst (latestState precedingUpdates db ck) with
    | Some vv => Some (set_value keyop (Value vv))
    | None => None
    end.
Proof.
  intros Hord Hrun Hck Hdel Hboth Honly.
  destruct (prepareTxOps_success SerializeMetadata precedingUpdates db
              order rwset txht m tr Hord Hrun ck) as [-> _].
  rewrite Hck; simpl. unfold entryResult, needsLookup.
  by rewrite Hdel, Hboth, Honly.
Qed.

(** C3: a metadata-only entry (not a delete, not set in full, not a
    value-only write) is absent from the returned map when neither the
    preceding updates nor the persisted state hold a versioned value for
    its key; when the lookup finds a versioned value, the entry is in the
    returned map, its value is the value of that versioned value, and its
    metadata and its marks are those of the populated entry. *)
Theorem metadata_only_entry_dropped_or_completed
    order rwset txht m tr ck keyop :
  RangeOrder order (populated SerializeMetadata rwset) ->
  prepareTxOps SerializeMetadata order rwset txht precedingUpdates db =
    ((Some m, None), tr) ->
  populated SerializeMetadata rwset !! ck = Some keyop ->
  isDelete keyop = false ->
  isUpsertAndMetadataUpdate keyop = false ->
  isOnlyUpsert keyop = false ->
  (precedingGet precedingUpdates (ns ck) (coll ck) (key ck) = None ->
   fst (persistedGet db (ns ck) (coll ck) (key ck)) = None ->
   m !! ck = None) /\
  (forall vv,
     fst (latestState precedingUpdates db ck) = Some vv ->
     exists keyop',
       m !! ck = Some keyop' /\
       value keyop' = Value vv /\
       metadata keyop' = metadata keyop /\
       deleted keyop' = deleted keyop /\
       valueTouched keyop' = valueTouched keyop /\
       metadataTouch keyop' = metadataTouch keyop).
Proof.
  intros Hord Hrun Hck Hdel Hboth Honly.
  rewrite (metadata_only_lookup order rwset txht m tr ck keyop) by done.
  split.
  - intros Hpre Hdb. by rewrite latestState_sources, Hpre, Hdb.
  - intros vv ->. exists (set_value keyop (Value vv)).
    split; [done|]. unfold set_value; simpl. by repeat split.
Qed.

(** C9: for a metadata-only entry the returned map has no entry exactly
    when the lookup returns no versioned value; a versioned value whose
    value is nil keeps the entry, with a nil value. *)
Theorem metadata_only_entry_kept_on_nil_value
    order rwset txht m tr ck keyop :
  RangeOrder order (populated SerializeMetadata rwset) ->
  prepareTxOps SerializeMetadata order rwset txht precedingUpdates db =
    ((Some m, None), tr) ->
  populated SerializeMetadata rwset !! ck = Some keyop ->
  isDelete keyop = false ->
  isUpsertAndMetadataUpdate keyop = false ->
  isOnlyUpsert keyop = false ->
  (m !! ck = None <-> fst (latestState precedingUpdates db ck) = None) /\
  (forall vv,
     fst (latestState precedingUpdates db ck) = Some vv ->
     Value vv = None ->
     m !! ck = Some (set_value keyop None)).
Proof.
  intros Hord Hrun Hck Hdel Hboth Honly.
  rewrite (metadata_only_lookup order rwset txht m tr ck keyop) by done.
  split.
  - by destruct (fst (latestState precedingUpdates db ck)).
  - by intros vv -> ->.
Qed.

(** C5: a value-only entry (not a delete, value touched, metadata neither
    touched nor cleared) is in the returned map with the value the
    transaction wrote and the metadata of the latest state, or no metadata
    when the lookup finds no state: it is never dropped. *)
Theorem value_only_entry_adopts_metadata order rwset txht m tr ck keyop :
  RangeOrder order (populated SerializeMetadata rwset) ->
  prepareTxOps SerializeMetadata order rwset txht precedingUpdates db =
    ((Some m, None), tr) ->
  populated SerializeMetadata rwset !! ck = Some keyop ->
  isDelete keyop = false ->
  isUpsertAndMetadataUpdate keyop = false ->
  isOnlyUpsert keyop = true ->
  exists keyop',
    m !! ck = Some keyop' /\
    value keyop' = value keyop /\
    isDelete keyop' = false /\
    metadata keyop' =
      match fst (latestState precedingUpdates db ck) with
      | Some vv => Metadata vv
      | None => None
      end.
Proof.
  intros Hord Hrun Hck Hdel Hboth Honly.
  destruct (prepareTxOps_success SerializeMetadata precedingUpdates db
              order rwset txht m tr Hord Hrun ck) as [-> _].
  rewrite Hck; simpl. unfold entryResult, needsLookup.
  rewrite Hdel, Hboth, Honly; simpl.
  destruct (fst (latestState precedingUpdates db ck)) as [vv|].
  - by eexists.
  - exists keyop. repeat split; try done.
    destruct (populated_wellShaped _ _ _ _ Hck) as [[_ Hmd] _].
    apply Hmd. unfold isOnlyUpsert in Honly.
    apply andb_true_iff in Honly as [_ Hun%bool_decide_eq_true].
    by rewrite Hun.
Qed.

(** C6: for an entry that is a delete, or whose value and metadata are both
    set by the transaction, no lookup of the run is about its key, and the
    returned map, when there is one, holds the entry as populated. *)
Theorem delete_and_full_entries_untouched order rwset txht ck keyop :
  RangeOrder order (populated SerializeMetadata rwset) ->
  populated SerializeMetadata rwset !! ck = Some keyop ->
  isDelete keyop || isUpsertAndMetadataUpdate keyop = true ->
  Forall (fun l => lookupKey l <> ck)
    (snd (prepareTxOps SerializeMetadata order rwset txht
            precedingUpdates db)) /\
  (forall m,
     fst (fst (prepareTxOps SerializeMetadata order rwset txht
                 precedingUpdates db)) = Some m ->
     m !! ck = Some keyop).
Proof.
  intros Hord Hck Hskip.
  rewrite (prepareTxOps_spec SerializeMetadata precedingUpdates db
             order rwset txht Hord).
  split; cbn [fst snd].
  - apply Forall_forall. intros l Hl Heq.
    apply rangeTrace_elem in Hl as (ck' & keyop' & Hck' & Hneeds & Hl).
    apply latestTrace_lookupKey in Hl.
    assert (ck' = ck) as -> by congruence.
    rewrite Hck in Hck'. injection Hck' as <-.
    unfold needsLookup in Hneeds. by rewrite Hskip in Hneeds.
  - intros m.
    destruct (firstError precedingUpdates db order
                (populated SerializeMetadata rwset)); cbn [fst]; [done|].
    intros [= <-]. rewrite resolvedMap_lookup, Hck by done; simpl.
    unfold entryResult, needsLookup. by rewrite Hskip.
Qed.

(** C7: every entry of the returned map that is not a delete comes from an
    entry of the populated map, its value is the one the transaction wrote
    or the value of the latest state, and its metadata is the one the
    transaction wrote, or absent because the transaction cleared it, or the
    metadata of the latest state (none when there is no such state). *)
Theorem output_entries_resolved order rwset txht m tr ck keyop' :
  RangeOrder order (populated SerializeMetadata rwset) ->
  prepareTxOps SerializeMetadata order rwset txht precedingUpdates db =
    ((Some m, None), tr) ->
  m !! ck = Some keyop' ->
  isDelete keyop' = false ->
  exists keyop,
    populated SerializeMetadata rwset !! ck = Some keyop /\
    valueResolved (fst (latestState precedingUpdates db ck)) keyop keyop' /\
    metadataResolved (fst (latestState precedingUpdates db ck)) keyop keyop'.
Proof.
  intros Hord Hrun Hm Hdel.
  destruct (prepareTxOps_success SerializeMetadata precedingUpdates db
              order rwset txht m tr Hord Hrun ck) as [Hlook _].
  rewrite Hm in Hlook.
  destruct (populated SerializeMetadata rwset !! ck) as [keyop|] eqn:Hck;
    [|done].
  exists keyop. split; [done|].
  destruct (populated_wellShaped _ _ _ _ Hck) as [[Hv Hmd] Htouched].
  simpl in Hlook. symmetry in Hlook.
  unfold entryResult, needsLookup, isDelete, isUpsertAndMetadataUpdate,
    isOnlyUpsert in Hlook.
  unfold valueResolved, metadataResolved, somethingTouched in *.
  destruct keyop as [d vt mt v md]; simpl in *.
  destruct (fst (latestState precedingUpdates db ck)) as [vv|];
    destruct d, vt, mt; simpl in *; simplify_eq; simpl in *;
    try discriminate;
    try (split; [by left | first [done | by apply Hmd]]);
    try (split; [right; split; [done|by eexists] |
                 first [done | by apply Hmd]]).
  all: by destruct Htouched as [?|[?|?]].
Qed.

(** C4: prepareTxOps returns a map and a nil error, the map holding every
    populated entry as the merge leaves it, or a nil map and an error; and
    when the lookup of some entry that needs one fails, it returns a nil
    map with the error of a failed lookup, which is the last lookup it
    made. *)
Theorem prepareTxOps_lookup_error_atomic order rwset txht :
  RangeOrder order (populated SerializeMetadata rwset) ->
  ((exists m,
      fst (prepareTxOps SerializeMetadata order rwset txht
             precedingUpdates db) = (Some m, None) /\
      forall ck,
        m !! ck =
          populated SerializeMetadata rwset !! ck
            ≫= entryResult precedingUpdates db ck) \/
   (exists e,
      fst (prepareTxOps SerializeMetadata order rwset txht
             precedingUpdates db) = (None, Some e))) /\
  (forall ck keyop e,
     populated SerializeMetadata rwset !! ck = Some keyop ->
     needsLookup keyop = true ->
     snd (latestState precedingUpdates db ck) = Some e ->
     exists ck' keyop' e' tr0,
       populated SerializeMetadata rwset !! ck' = Some keyop' /\
       needsLookup keyop' = true /\
       snd (latestState precedingUpdates db ck') = Some e' /\
       prepareTxOps SerializeMetadata order rwset txht precedingUpdates db =
         ((None, Some e'), tr0 ++ latestTrace precedingUpdates db ck')).
Proof.
  intros Hord.
  rewrite (prepareTxOps_spec SerializeMetadata precedingUpdates db
             order rwset txht Hord).
  destruct (firstError precedingUpdates db order
              (populated SerializeMetadata rwset)) as [e'|] eqn:Hfirst.
  - split; [right; by eexists|].
    intros _ _ _ _ _ _.
    apply firstError_trace in Hfirst
      as (ck' & keyop' & tr0 & Hck' & Hneeds' & He' & ->).
    by exists ck', keyop', e', tr0.
  - split.
    { left. eexists. split; [done|]. intros ck.
      by apply resolvedMap_lookup. }
    intros ck keyop e Hck Hneeds He.
    assert (entryError precedingUpdates db ck keyop = None) as Hnone.
    { eapply firstError_None; [done| |done].
      apply (RangeOrder_elem_of _ _ ck Hord). eauto. }
    unfold entryError in Hnone. rewrite Hneeds in Hnone. congruence.
Qed.

(** C10: converting a key hash to a string and back keeps its bytes, and
    every call of GetValueHash that prepareTxOps makes passes the bytes of
    the key hash of a hashed write, or hashed metadata write, of that
    namespace and collection of the write set. *)
Theorem getValueHash_queried_with_keyHash order rwset txht n c keyHash :
  RangeOrder order (populated SerializeMetadata rwset) ->
  DbGetValueHash n c keyHash ∈
    snd (prepareTxOps SerializeMetadata order rwset txht
           precedingUpdates db) ->
  (forall b, content (bytes_of_string (string_of_bytes b)) = content b) /\
  exists keyHash0,
    keyHash0 ∈ hashedKeyHashes rwset n c /\
    keyHash = bytes_of_string (string_of_bytes keyHash0) /\
    content keyHash = content keyHash0.
Proof.
  intros Hord Hin.
  assert (forall b, content (bytes_of_string (string_of_bytes b)) = content b)
    as Hround.
  { intros b. unfold bytes_of_string, string_of_bytes; simpl.
    apply list_byte_of_string_of_list_byte. }
  split; [done|].
  rewrite (prepareTxOps_spec SerializeMetadata precedingUpdates db
             order rwset txht Hord) in Hin.
  cbn [snd] in Hin.
  apply rangeTrace_elem in Hin as (ck & keyop & Hck & _ & Hin).
  apply latestTrace_DbGetValueHash in Hin as (-> & -> & -> & Hcoll).
  destruct (populated_inv SerializeMetadata rwset ck keyop Hck)
    as [[Hpub|(keyHash0 & Hin0 & Hkey)] _]; [done|].
  exists keyHash0. rewrite Hkey. by split.
Qed.

End Merge.

(** ** Determinism *)

Section Determinism.

Variable SerializeMetadata : list KVMetadataEntry -> bytes * option error.
Variables precedingUpdates1 precedingUpdates2 : PubAndHashUpdates.
Variables db1 db2 : DB.
Hypothesis Hsame : sameAnswers precedingUpdates1 db1 precedingUpdates2 db2.

Lemma latestState_sameAnswers ck :
  latestState precedingUpdates1 db1 ck = latestState precedingUpdates2 db2 ck.
Proof.
  destruct Hsame as (Hpub & Hhash & Hstate & Hvh).
  unfold latestState, retrieveLatestState.
  rewrite Hpub, Hhash, Hstate, Hvh.
  destruct (decide (coll ck = "")).
  - by destruct (PubUpdates_Get precedingUpdates2 (ns ck) (key ck)).
  - by destruct (HashUpdates_Get precedingUpdates2 (ns ck) (coll ck)
                   (key ck)).
Qed.

Lemma entryError_sameAnswers ck keyop :
  entryError precedingUpdates1 db1 ck keyop =
  entryError precedingUpdates2 db2 ck keyop.
Proof. unfold entryError. by rewrite latestState_sameAnswers. Qed.

Lemma entryResult_sameAnswers ck keyop :
  entryResult precedingUpdates1 db1 ck keyop =
  entryResult precedingUpdates2 db2 ck keyop.
Proof. unfold entryResult. by rewrite latestState_sameAnswers. Qed.

(** C8: two runs of prepareTxOps on the same write set, against lookup
    sources that give the same answers, return the same map (the same
    entries, or nil in both runs), whatever the order in which each run
    visits the map. *)
Theorem prepareTxOps_order_independent order1 order2 rwset txht :
  RangeOrder order1 (populated SerializeMetadata rwset) ->
  RangeOrder order2 (populated SerializeMetadata rwset) ->
  fst (fst (prepareTxOps SerializeMetadata order1 rwset txht
              precedingUpdates1 db1)) =
  fst (fst (prepareTxOps SerializeMetadata order2 rwset txht
              precedingUpdates2 db2)).
Proof.
  intros Hord1 Hord2.
  rewrite !prepareTxOps_spec by done. cbn [fst].
  destruct (firstError precedingUpdates1 db1 order1
              (populated SerializeMetadata rwset)) as [e1|] eqn:H1;
    destruct (firstError precedingUpdates2 db2 order2
                (populated SerializeMetadata rwset)) as [e2|] eqn:H2;
    cbn [fst]; [done| | |].
  - apply firstError_Some in H1 as (ck & keyop & Hin & Hck & He).
    assert (ck ∈ order2) as Hin'
      by (apply (RangeOrder_elem_of _ _ ck Hord2); eauto).
    pose proof (firstError_None precedingUpdates2 db2 order2 _ ck keyop
                  H2 Hin' Hck).
    rewrite entryError_sameAnswers in He. congruence.
  - apply firstError_Some in H2 as (ck & keyop & Hin & Hck & He).
    assert (ck ∈ order1) as Hin'
      by (apply (RangeOrder_elem_of _ _ ck Hord1); eauto).
    pose proof (firstError_None precedingUpdates1 db1 order1 _ ck keyop
                  H1 Hin' Hck).
    rewrite <- entryError_sameAnswers in He. congruence.
  - f_equal. apply map_eq; intros ck. rewrite !resolvedMap_lookup by done.
    destruct (populated SerializeMetadata rwset !! ck); simpl; [|done].
    apply entryResult_sameAnswers.
Qed.

End Determinism.

(** ** The scenarios, run *)

Lemma returnsMap_eq (r : (option txOps * option error) * Trace) :
  returnsMap r = true ->
  r = ((Some (default ∅ (fst (fst r))), None), snd r).
Proof. by destruct r as [[[m|] [e|]] tr]. Qed.

Lemma metadata_only_entry_dropped_or_completed_witness :
  Scenario.output !! Scenario.keyA = None /\
  exists keyop',
    Scenario.output !! Scenario.keyH = Some keyop' /\
    value keyop' = Scenario.vh1 /\
    metadata keyop' = metadata Scenario.metadataOnly /\
    deleted keyop' = deleted Scenario.metadataOnly /\
    valueTouched keyop' = valueTouched Scenario.metadataOnly /\
    metadataTouch keyop' = metadataTouch Scenario.metadataOnly.
Proof.
  split.
  - apply (proj1 (metadata_only_entry_dropped_or_completed
                    Scenario.codec Scenario.precedingUpdates Scenario.db
                    Scenario.order Scenario.rwset None
                    Scenario.output Scenario.trace
                    Scenario.keyA Scenario.metadataOnly
                    (RangeOrder_keys _)
                    (returnsMap_eq Scenario.run ltac:(vm_compute; reflexivity))
                    ltac:(vm_compute; reflexivity)
                    eq_refl eq_refl eq_refl));
      vm_compute; reflexivity.
  - apply (proj2 (metadata_only_entry_dropped_or_completed
                    Scenario.codec Scenario.precedingUpdates Scenario.db
                    Scenario.order Scenario.rwset None
                    Scenario.output Scenario.trace
                    Scenario.keyH Scenario.metadataOnly
                    (RangeOrder_keys _)
                    (returnsMap_eq Scenario.run ltac:(vm_compute; reflexivity))
                    ltac:(vm_compute; reflexivity)
                    eq_refl eq_refl eq_refl)
                 (mkVersionedValue Scenario.vh1 None (Some (mkHeight 7 2)))).
    vm_compute; reflexivity.
Defined.

Lemma metadata_only_entry_kept_on_nil_value_witness :
  Scenario.output !! Scenario.keyE =
    Some (set_value Scenario.metadataOnly None).
Proof.
  apply (proj2 (metadata_only_entry_kept_on_nil_value
                  Scenario.codec Scenario.precedingUpdates Scenario.db
                  Scenario.order Scenario.rwset None
                  Scenario.output Scenario.trace
                  Scenario.keyE Scenario.metadataOnly
                  (RangeOrder_keys _)
                  (returnsMap_eq Scenario.run ltac:(vm_compute; reflexivity))
                  ltac:(vm_compute; reflexivity)
                  eq_refl eq_refl eq_refl)
               (mkVersionedValue None None (Some (mkHeight 7 1))));
    vm_compute; reflexivity.
Defined.

Lemma value_only_entry_adopts_metadata_witness :
  exists keyop',
    Scenario.output !! Scenario.keyB = Some keyop' /\
    value keyop' = value Scenario.valueOnly /\
    isDelete keyop' = false /\
    metadata keyop' =
      match fst (latestState Scenario.precedingUpdates Scenario.db
                   Scenario.keyB) with
      | Some vv => Metadata vv
      | None => None
      end.
Proof.
  apply (value_only_entry_adopts_metadata
           Scenario.codec Scenario.precedingUpdates Scenario.db
           Scenario.order Scenario.rwset None Scenario.output Scenario.trace
           Scenario.keyB Scenario.valueOnly);
    [apply RangeOrder_keys
    |apply (returnsMap_eq Scenario.run); vm_compute; reflexivity
    |vm_compute; reflexivity..].
Defined.

Lemma delete_and_full_entries_untouched_witness :
  (Forall (fun l => lookupKey l <> Scenario.keyC)
     (snd (prepareTxOps Scenario.codec Scenario.order Scenario.rwset None
             Scenario.precedingUpdates Scenario.db)) /\
   (forall m,
      fst (fst (prepareTxOps Scenario.codec Scenario.order Scenario.rwset
                  None Scenario.precedingUpdates Scenario.db)) = Some m ->
      m !! Scenario.keyC = Some Scenario.deleteOnly)) /\
  (Forall (fun l => lookupKey l <> Scenario.keyD)
     (snd (prepareTxOps Scenario.codec Scenario.order Scenario.rwset None
             Scenario.precedingUpdates Scenario.db)) /\
   (forall m,
      fst (fst (prepareTxOps Scenario.codec Scenario.order Scenario.rwset
                  None Scenario.precedingUpdates Scenario.db)) = Some m ->
      m !! Scenario.keyD = Some Scenario.valueAndMetadata)).
Proof.
  split.
  - apply (delete_and_full_entries_untouched
             Scenario.codec Scenario.precedingUpdates Scenario.db
             Scenario.order Scenario.rwset None
             Scenario.keyC Scenario.deleteOnly);
      [apply RangeOrder_keys | vm_compute; reflexivity..].
  - apply (delete_and_full_entries_untouched
             Scenario.codec Scenario.precedingUpdates Scenario.db
             Scenario.order Scenario.rwset None
             Scenario.keyD Scenario.valueAndMetadata);
      [apply RangeOrder_keys | vm_compute; reflexivity..].
Defined.

Lemma output_entries_resolved_witness :
  exists keyop,
    populated Scenario.codec Scenario.rwset !! Scenario.keyB = Some keyop /\
    valueResolved
      (fst (latestState Scenario.precedingUpdates Scenario.db Scenario.keyB))
      keyop (set_metadata Scenario.valueOnly Scenario.ownerX) /\
    metadataResolved
      (fst (latestState Scenario.precedingUpdates Scenario.db Scenario.keyB))
      keyop (set_metadata Scenario.valueOnly Scenario.ownerX).
Proof.
  apply (output_entries_resolved
           Scenario.codec Scenario.precedingUpdates Scenario.db
           Scenario.order Scenario.rwset None Scenario.output Scenario.trace
           Scenario.keyB (set_metadata Scenario.valueOnly Scenario.ownerX));
    [apply RangeOrder_keys
    |apply (returnsMap_eq Scenario.run); vm_compute; reflexivity
    |vm_compute; reflexivity..].
Defined.

Lemma prepareTxOps_order_independent_witness :
  fst (fst (prepareTxOps Scenario.codec Scenario.order Scenario.rwset None
              Scenario.precedingUpdates Scenario.db)) =
  fst (fst (prepareTxOps Scenario.codec (reverse Scenario.order)
              Scenario.rwset None
              Scenario.precedingUpdates Scenario.db)).
Proof.
  apply (prepareTxOps_order_independent
           Scenario.codec Scenario.precedingUpdates Scenario.precedingUpdates
           Scenario.db Scenario.db).
  - repeat split; reflexivity.
  - apply RangeOrder_keys.
  - unfold RangeOrder, Scenario.order. apply reverse_Permutation.
Defined.

Lemma prepareTxOps_lookup_error_atomic_witness :
  exists ck' keyop' e' tr0,
    populated Scenario.codec Scenario.rwset !! ck' = Some keyop' /\
    needsLookup keyop' = true /\
    snd (latestState Scenario.precedingUpdates Scenario.brokenDb ck') =
      Some e' /\
    prepareTxOps Scenario.codec Scenario.order Scenario.rwset None
      Scenario.precedingUpdates Scenario.brokenDb =
      ((None, Some e'),
       tr0 ++ latestTrace Scenario.precedingUpdates Scenario.brokenDb ck').
Proof.
  apply (proj2 (prepareTxOps_lookup_error_atomic
                  Scenario.codec Scenario.precedingUpdates Scenario.brokenDb
                  Scenario.order Scenario.rwset None (RangeOrder_keys _))
               Scenario.keyA Scenario.metadataOnly
               (StorageError "leveldb: closed"));
    vm_compute; reflexivity.
Defined.

Lemma getValueHash_queried_with_keyHash_witness :
  (forall b, content (bytes_of_string (string_of_bytes b)) = content b) /\
  exists keyHash0,
    keyHash0 ∈ hashedKeyHashes Scenario.rwset "ns1" "coll1" /\
    Scenario.H2 = bytes_of_string (string_of_bytes keyHash0) /\
    content Scenario.H2 = content keyHash0.
Proof.
  apply (getValueHash_queried_with_keyHash
           Scenario.codec Scenario.precedingUpdates Scenario.db
           Scenario.order Scenario.rwset None "ns1" "coll1" Scenario.H2).
  - apply RangeOrder_keys.
  - apply list_elem_of_In. vm_compute. tauto.
Defined.

(** ** The lookups of a whole run *)

Section RunLookups.

Variable SerializeMetadata : list KVMetadataEntry -> bytes * option error.
Variable precedingUpdates : PubAndHashUpdates.
Variable db : DB.

Lemma latestTrace_shape ck :
  latestTrace precedingUpdates db ck =
  match precedingGet precedingUpdates (ns ck) (coll ck) (key ck) with
  | Some _ => [indexLookup ck]
  | None => [indexLookup ck; dbLookup ck]
  end.
Proof.
  unfold latestTrace, retrieveLatestState, precedingGet, indexLookup, dbLookup.
  destruct (decide (coll ck = "")).
  - by destruct (PubUpdates_Get precedingUpdates (ns ck) (key ck)).
  - by destruct (HashUpdates_Get precedingUpdates (ns ck) (coll ck) (key ck)).
Qed.

Lemma indexLookup_not_db ck : isDbLookup (indexLookup ck) = false.
Proof. unfold indexLookup. by destruct (decide (coll ck = "")). Qed.

Lemma dbLookup_is_db ck : isDbLookup (dbLookup ck) = true.
Proof. unfold dbLookup. by destruct (decide (coll ck = "")). Qed.

Lemma latestTrace_NoDup ck : NoDup (latestTrace precedingUpdates db ck).
Proof.
  rewrite latestTrace_shape.
  destruct (precedingGet precedingUpdates (ns ck) (coll ck) (key ck)).
  - apply NoDup_singleton.
  - apply NoDup_cons. split; [|apply NoDup_singleton].
    intros Hin%list_elem_of_singleton.
    pose proof (indexLookup_not_db ck) as Hidx.
    rewrite Hin, dbLookup_is_db in Hidx. discriminate.
Qed.

Lemma rangeTrace_elem_order order (txops : txOps) l :
  l ∈ rangeTrace precedingUpdates db order txops ->
  exists ck keyop,
    ck ∈ order /\ txops !! ck = Some keyop /\ needsLookup keyop = true /\
    l ∈ latestTrace precedingUpdates db ck.
Proof.
  induction order as [|ck rest IH]; simpl.
  { intros Hl. by apply elem_of_nil in Hl. }
  destruct (txops !! ck) as [keyop|] eqn:Hck.
  - intros [Hl|Hl]%elem_of_app.
    + unfold entryTrace in Hl.
      destruct (needsLookup keyop) eqn:Hneeds;
        [|by apply elem_of_nil in Hl].
      exists ck, keyop. split; [apply list_elem_of_here|done].
    + destruct (entryError precedingUpdates db ck keyop);
        [by apply elem_of_nil in Hl|].
      apply IH in Hl as (ck' & keyop' & Hin & Hrest).
      exists ck', keyop'. split; [by apply list_elem_of_further|done].
  - intros (ck' & keyop' & Hin & Hrest)%IH.
    exists ck', keyop'. split; [by apply list_elem_of_further|done].
Qed.

Lemma rangeTrace_NoDup order (txops : txOps) :
  NoDup order -> NoDup (rangeTrace precedingUpdates db order txops).
Proof.
  induction order as [|ck rest IH]; simpl; [intros _; apply NoDup_nil_2|].
  intros [Hnotin Hnd]%NoDup_cons.
  destruct (txops !! ck) as [keyop|] eqn:Hck; [|by apply IH].
  apply NoDup_app. split; [|split].
  - unfold entryTrace. destruct (needsLookup keyop);
      [apply latestTrace_NoDup | apply NoDup_nil_2].
  - intros l Hl Hl'.
    destruct (entryError precedingUpdates db ck keyop);
      [by apply elem_of_nil in Hl'|].
    unfold entryTrace in Hl.
    destruct (needsLookup keyop); [|by apply elem_of_nil in Hl].
    apply latestTrace_lookupKey in Hl.
    apply rangeTrace_elem_order in Hl' as (ck' & _ & Hin & _ & _ & Hl').
    apply latestTrace_lookupKey in Hl'. congruence.
  - destruct (entryError precedingUpdates db ck keyop);
      [apply NoDup_nil_2 | by apply IH].
Qed.

Lemma rangeTrace_complete order (txops : txOps) ck keyop l :
  firstError precedingUpdates db order txops = None ->
  ck ∈ order -> txops !! ck = Some keyop -> needsLookup keyop = true ->
  l ∈ latestTrace precedingUpdates db ck ->
  l ∈ rangeTrace precedingUpdates db order txops.
Proof.
  intros Hfirst Hin Hck Hneeds Hl.
  induction order as [|ck' rest IH]; simpl in *.
  { by apply elem_of_nil in Hin. }
  destruct (txops !! ck') as [keyop'|] eqn:Hck'; simpl in Hfirst.
  - destruct (entryError precedingUpdates db ck' keyop') eqn:He; [done|].
    apply elem_of_app.
    apply elem_of_cons in Hin as [<-|Hin].
    + left. rewrite Hck in Hck'. injection Hck' as <-.
      unfold entryTrace. by rewrite Hneeds.
    + right. by apply IH.
  - apply elem_of_cons in Hin as [<-|Hin]; [congruence|by apply IH].
Qed.

Lemma rangeTrace_whole_entry order (txops : txOps) ck l l' :
  l ∈ rangeTrace precedingUpdates db order txops ->
  l ∈ latestTrace precedingUpdates db ck ->
  l' ∈ latestTrace precedingUpdates db ck ->
  l' ∈ rangeTrace precedingUpdates db order txops.
Proof.
  intros Hl Hlck Hl'.
  induction order as [|ck0 rest IH]; simpl in *;
    [by apply elem_of_nil in Hl|].
  destruct (txops !! ck0) as [keyop0|] eqn:Hck0; [|by apply IH].
  apply elem_of_app in Hl as [Hl|Hl]; apply elem_of_app.
  - left. unfold entryTrace in *.
    destruct (needsLookup keyop0); [|by apply elem_of_nil in Hl].
    apply latestTrace_lookupKey in Hl as Hkey0.
    apply latestTrace_lookupKey in Hlck as Hkey.
    by assert (ck0 = ck) as -> by congruence.
  - right. destruct (entryError precedingUpdates db ck0 keyop0);
      [by apply elem_of_nil in Hl | by apply IH].
Qed.

(** X1: in one run of prepareTxOps no lookup is made twice: the index and
    the persisted state are each asked at most once about a key. *)
Theorem prepareTxOps_no_repeated_lookup order rwset txht :
  RangeOrder order (populated SerializeMetadata rwset) ->
  NoDup (snd (prepareTxOps SerializeMetadata order rwset txht
                precedingUpdates db)).
Proof.
  intros Hord.
  rewrite (prepareTxOps_spec SerializeMetadata precedingUpdates db
             order rwset txht Hord).
  cbn [snd]. apply rangeTrace_NoDup. by eapply RangeOrder_NoDup.
Qed.

(** X2: every read of the persisted state in a run of prepareTxOps is about
    the key of a populated entry that is neither a delete nor set in full,
    and for which the preceding-updates index reports absence; the index
    was asked about that key in the same run. *)
Theorem prepareTxOps_db_read_only_on_index_miss order rwset txht l :
  RangeOrder order (populated SerializeMetadata rwset) ->
  l ∈ snd (prepareTxOps SerializeMetadata order rwset txht
             precedingUpdates db) ->
  isDbLookup l = true ->
  l = dbLookup (lookupKey l) /\
  indexLookup (lookupKey l) ∈
    snd (prepareTxOps SerializeMetadata order rwset txht
           precedingUpdates db) /\
  precedingGet precedingUpdates (ns (lookupKey l)) (coll (lookupKey l))
    (key (lookupKey l)) = None /\
  exists keyop,
    populated SerializeMetadata rwset !! lookupKey l = Some keyop /\
    isDelete keyop = false /\ isUpsertAndMetadataUpdate keyop = false.
Proof.
  intros Hord Hl Hdb.
  rewrite (prepareTxOps_spec SerializeMetadata precedingUpdates db
             order rwset txht Hord) in *.
  cbn [snd] in *.
  pose proof Hl as Hl0.
  apply rangeTrace_elem_order in Hl as (ck & keyop & Hin & Hck & Hneeds & Hl).
  rewrite (latestTrace_lookupKey precedingUpdates db ck l Hl).
  assert (indexLookup ck ∈ latestTrace precedingUpdates db ck) as Hidx.
  { rewrite latestTrace_shape.
    destruct (precedingGet precedingUpdates (ns ck) (coll ck) (key ck));
      apply list_elem_of_here. }
  pose proof (rangeTrace_whole_entry _ _ ck l _ Hl0 Hl Hidx) as Hidx'.
  rewrite latestTrace_shape in Hl.
  destruct (precedingGet precedingUpdates (ns ck) (coll ck) (key ck))
    as [vv|] eqn:Hpre.
  { apply list_elem_of_singleton in Hl. subst l.
    by rewrite indexLookup_not_db in Hdb. }
  apply elem_of_cons in Hl as [->|Hl%list_elem_of_singleton].
  { by rewrite indexLookup_not_db in Hdb. }
  subst l. split; [done|]. split; [done|]. split; [done|].
  exists keyop. split; [done|].
  unfold needsLookup in Hneeds.
  by apply negb_true_iff, orb_false_iff in Hneeds.
Qed.

End RunLookups.

(** ** Whole runs *)

Section Runs.

Variable SerializeMetadata : list KVMetadataEntry -> bytes * option error.
Variable precedingUpdates : PubAndHashUpdates.
Variable db : DB.

Lemma lookupKey_indexLookup ck : lookupKey (indexLookup ck) = ck.
Proof.
  unfold indexLookup. destruct ck as [n c k]; simpl.
  by destruct (decide (c = "")) as [->|].
Qed.

Lemma lookupKey_dbLookup ck : lookupKey (dbLookup ck) = ck.
Proof.
  unfold dbLookup. destruct ck as [n c k]; simpl.
  destruct (decide (c = "")) as [->|]; simpl; [done|].
  by rewrite string_of_bytes_of_string.
Qed.

Lemma firstError_all_None order (txops : txOps) :
  (forall ck keyop,
     txops !! ck = Some keyop ->
     entryError precedingUpdates db ck keyop = None) ->
  firstError precedingUpdates db order txops = None.
Proof.
  intros Hall. induction order as [|ck rest IH]; simpl; [done|].
  destruct (txops !! ck) as [keyop|] eqn:Hck; simpl; [|done].
  by rewrite (Hall ck keyop Hck).
Qed.

(** X3: when prepareTxOps returns a map, the index was asked about the key
    of every populated entry that is neither a delete nor set in full, and
    the persisted state was read for that key exactly when the index
    reported absence. *)
Theorem prepareTxOps_looks_up_every_partial_entry
    order rwset txht m tr ck keyop :
  RangeOrder order (populated SerializeMetadata rwset) ->
  prepareTxOps SerializeMetadata order rwset txht precedingUpdates db =
    ((Some m, None), tr) ->
  populated SerializeMetadata rwset !! ck = Some keyop ->
  isDelete keyop = false ->
  isUpsertAndMetadataUpdate keyop = false ->
  indexLookup ck ∈ tr /\
  (dbLookup ck ∈ tr <->
   precedingGet precedingUpdates (ns ck) (coll ck) (key ck) = None).
Proof.
  intros Hord Hrun Hck Hdel Hboth.
  rewrite (prepareTxOps_spec SerializeMetadata precedingUpdates db
             order rwset txht Hord) in Hrun.
  destruct (firstError precedingUpdates db order
              (populated SerializeMetadata rwset)) eqn:Hfirst; [done|].
  injection Hrun as _ <-.
  assert (needsLookup keyop = true) as Hneeds
    by (unfold needsLookup; by rewrite Hdel, Hboth).
  assert (ck ∈ order) as Hin
    by (apply (RangeOrder_elem_of _ _ ck Hord); eauto).
  pose proof (fun l =>
                rangeTrace_complete precedingUpdates db order
                  (populated SerializeMetadata rwset) ck keyop l
                  Hfirst Hin Hck Hneeds) as Hcomplete.
  pose proof (latestTrace_shape precedingUpdates db ck) as Hshape.
  destruct (precedingGet precedingUpdates (ns ck) (coll ck) (key ck))
    as [vv|] eqn:Hpre.
  - split.
    + apply Hcomplete. rewrite Hshape. apply list_elem_of_here.
    + split; [|done]. intros Hdb.
      apply rangeTrace_elem_order in Hdb as (ck' & _ & _ & _ & _ & Hdb).
      apply latestTrace_lookupKey in Hdb as Hkey.
      rewrite lookupKey_dbLookup in Hkey. subst ck'.
      rewrite Hshape in Hdb. apply list_elem_of_singleton in Hdb.
      pose proof (dbLookup_is_db ck) as Hisdb.
      by rewrite Hdb, indexLookup_not_db in Hisdb.
  - split.
    + apply Hcomplete. rewrite Hshape. apply list_elem_of_here.
    + split; [done|]. intros _.
      apply Hcomplete. rewrite Hshape.
      apply list_elem_of_further, list_elem_of_here.
Qed.

(** X4: an error prepareTxOps returns is the error of a read of the
    persisted state, made for a populated entry that is neither a delete
    nor set in full and that the preceding updates do not hold; the map
    returned with it is nil. *)
Theorem prepareTxOps_error_is_db_error order rwset txht e :
  RangeOrder order (populated SerializeMetadata rwset) ->
  snd (fst (prepareTxOps SerializeMetadata order rwset txht
              precedingUpdates db)) = Some e ->
  fst (fst (prepareTxOps SerializeMetadata order rwset txht
              precedingUpdates db)) = None /\
  exists ck keyop,
    populated SerializeMetadata rwset !! ck = Some keyop /\
    isDelete keyop = false /\ isUpsertAndMetadataUpdate keyop = false /\
    precedingGet precedingUpdates (ns ck) (coll ck) (key ck) = None /\
    snd (persistedGet db (ns ck) (coll ck) (key ck)) = Some e.
Proof.
  intros Hord.
  rewrite (prepareTxOps_spec SerializeMetadata precedingUpdates db
             order rwset txht Hord).
  destruct (firstError precedingUpdates db order
              (populated SerializeMetadata rwset)) as [e'|] eqn:Hfirst;
    cbn [fst snd]; [|done].
  intros [= ->]. split; [done|].
  apply firstError_Some in Hfirst as (ck & keyop & _ & Hck & He).
  apply entryError_Some in He as [Hneeds He].
  exists ck, keyop. split; [done|].
  unfold needsLookup in Hneeds.
  apply negb_true_iff, orb_false_iff in Hneeds as [Hdel Hboth].
  split; [done|]. split; [done|].
  rewrite latestState_sources in He.
  by destruct (precedingGet precedingUpdates (ns ck) (coll ck) (key ck)).
Qed.

(** X5: when the preceding updates hold a value for the key of every
    populated entry that needs a lookup, prepareTxOps returns a map and
    never reads the persisted state, whatever those reads would return. *)
Theorem prepareTxOps_covered_by_index order rwset txht :
  RangeOrder order (populated SerializeMetadata rwset) ->
  map_Forall
    (fun ck keyop =>
       needsLookup keyop = true ->
       is_Some (precedingGet precedingUpdates (ns ck) (coll ck) (key ck)))
    (populated SerializeMetadata rwset) ->
  (exists m,
     fst (prepareTxOps SerializeMetadata order rwset txht
            precedingUpdates db) = (Some m, None)) /\
  Forall (fun l => isDbLookup l = false)
    (snd (prepareTxOps SerializeMetadata order rwset txht
            precedingUpdates db)).
Proof.
  intros Hord Hcov.
  rewrite (prepareTxOps_spec SerializeMetadata precedingUpdates db
             order rwset txht Hord).
  rewrite firstError_all_None; cbn [fst snd].
  - split; [by eexists|].
    apply Forall_forall. intros l Hl.
    apply rangeTrace_elem_order in Hl as (ck & keyop & _ & Hck & Hneeds & Hl).
    destruct (Hcov ck keyop Hck Hneeds) as [vv Hpre].
    rewrite latestTrace_shape, Hpre in Hl.
    apply list_elem_of_singleton in Hl as ->. apply indexLookup_not_db.
  - intros ck keyop Hck. unfold entryError.
    destruct (needsLookup keyop) eqn:Hneeds; [|done].
    destruct (Hcov ck keyop Hck Hneeds) as [vv Hpre].
    by rewrite latestState_sources, Hpre.
Qed.

(** X6: when every populated entry is a delete or has value and metadata
    set by the transaction, prepareTxOps returns the populated map as it
    is, with a nil error and without any lookup, whatever the lookup
    sources hold. *)
Theorem prepareTxOps_nothing_to_resolve order rwset txht :
  RangeOrder order (populated SerializeMetadata rwset) ->
  map_Forall
    (fun _ keyop => isDelete keyop || isUpsertAndMetadataUpdate keyop = true)
    (populated SerializeMetadata rwset) ->
  prepareTxOps SerializeMetadata order rwset txht precedingUpdates db =
    ((Some (populated SerializeMetadata rwset), None), []).
Proof.
  intros Hord Hskip.
  rewrite (prepareTxOps_spec SerializeMetadata precedingUpdates db
             order rwset txht Hord).
  assert (forall ck keyop,
            populated SerializeMetadata rwset !! ck = Some keyop ->
            needsLookup keyop = false) as Hno.
  { intros ck keyop Hck. unfold needsLookup. by rewrite (Hskip ck keyop Hck). }
  rewrite firstError_all_None.
  2:{ intros ck keyop Hck. unfold entryError. by rewrite (Hno ck keyop Hck). }
  f_equal; [f_equal; f_equal|].
  - apply map_eq; intros ck. rewrite resolvedMap_lookup by done.
    destruct (populated SerializeMetadata rwset !! ck) as [keyop|] eqn:Hck;
      simpl; [|done].
    unfold entryResult. by rewrite (Hno ck keyop Hck).
  - destruct (rangeTrace precedingUpdates db order
                (populated SerializeMetadata rwset)) as [|l tr] eqn:Htr;
      [done|].
    assert (l ∈ rangeTrace precedingUpdates db order
                  (populated SerializeMetadata rwset)) as Hl
      by (rewrite Htr; apply list_elem_of_here).
    apply rangeTrace_elem in Hl as (ck & keyop & Hck & Hneeds & _).
    rewrite (Hno ck keyop Hck) in Hneeds. discriminate.
Qed.

(** X7: the loop of prepareTxOps adds no key to the map, and the one way a
    populated key is missing from the returned map is the drop of an entry
    that is neither a delete, nor set in full, nor a value-only write, and
    for which the lookup returned no versioned value. *)
Theorem prepareTxOps_drops_only_unresolvable order rwset txht m tr ck :
  RangeOrder order (populated SerializeMetadata rwset) ->
  prepareTxOps SerializeMetadata order rwset txht precedingUpdates db =
    ((Some m, None), tr) ->
  (is_Some (m !! ck) -> is_Some (populated SerializeMetadata rwset !! ck)) /\
  (forall keyop,
     populated SerializeMetadata rwset !! ck = Some keyop ->
     (m !! ck = None <->
      isDelete keyop = false /\ isUpsertAndMetadataUpdate keyop = false /\
      isOnlyUpsert keyop = false /\
      fst (latestState precedingUpdates db ck) = None)).
Proof.
  intros Hord Hrun.
  destruct (prepareTxOps_success SerializeMetadata precedingUpdates db
              order rwset txht m tr Hord Hrun ck) as [-> _].
  split.
  - destruct (populated SerializeMetadata rwset !! ck); simpl; [eauto|].
    by intros [? ?].
  - intros keyop ->; simpl. unfold entryResult, needsLookup.
    destruct (isDelete keyop), (isUpsertAndMetadataUpdate keyop),
      (isOnlyUpsert keyop),
      (fst (latestState precedingUpdates db ck)); simpl;
      split; try done; by intros (? & ? & ? & ?).
Qed.

End Runs.

(** ** The keys of a run *)

Lemma populated_written SerializeMetadata rwset :
  populatedInv (fun ck => ck ∈ writtenKeys rwset)
               (populated SerializeMetadata rwset).
Proof.
  unfold populated, applyTxRwset; simpl.
  apply fold_left_invariant; [apply map_Forall_empty|].
  intros txops nsRWSet HnsIn Hinv.
  assert (forall ck, ck ∈ nsWrittenKeys nsRWSet -> ck ∈ writtenKeys rwset)
    as Hns.
  { intros ck Hck. apply list_elem_of_In, in_flat_map. exists nsRWSet.
    split; by apply list_elem_of_In. }
  unfold applyNsRwSet. apply fold_left_invariant.
  { apply fold_left_invariant.
    - apply fold_left_invariant; [done|].
      intros txops' kvWrite HwIn Hinv'.
      apply applyKVWrite_inv; [done|]. apply Hns. unfold nsWrittenKeys.
      apply elem_of_app. left.
      by apply (list_elem_of_fmap_2
                  (fun w => mkCompositeKey (NameSpace nsRWSet) "" (Key w))).
    - intros txops' kvMetadataWrite HwIn Hinv'.
      apply applyMetadata_inv; [done|]. apply Hns. unfold nsWrittenKeys.
      apply elem_of_app. right. apply elem_of_app. left.
      by apply (list_elem_of_fmap_2
                  (fun w =>
                     mkCompositeKey (NameSpace nsRWSet) "" (MetadataKey w))). }
  intros txops' collHashRWset HcollIn Hinv'.
  assert (forall ck,
            ck ∈ collWrittenKeys (NameSpace nsRWSet) collHashRWset ->
            ck ∈ writtenKeys rwset) as Hcoll.
  { intros ck Hck. apply Hns. unfold nsWrittenKeys.
    apply elem_of_app. right. apply elem_of_app. right.
    apply list_elem_of_In, in_flat_map. exists collHashRWset.
    split; by apply list_elem_of_In. }
  unfold applyCollHashedRwSet. apply fold_left_invariant.
  - apply fold_left_invariant; [done|].
    intros txops'' hashedWrite HwIn Hinv''.
    apply applyKVWrite_inv; [done|]. apply Hcoll. unfold collWrittenKeys.
    apply elem_of_app. left.
    by apply (list_elem_of_fmap_2
                (fun w =>
                   mkCompositeKey (NameSpace nsRWSet)
                     (CollectionName collHashRWset)
                     (string_of_bytes (KeyHash w)))).
  - intros txops'' metadataWrite HwIn Hinv''.
    apply applyMetadata_inv; [done|]. apply Hcoll. unfold collWrittenKeys.
    apply elem_of_app. right.
    by apply (list_elem_of_fmap_2
                (fun w =>
                   mkCompositeKey (NameSpace nsRWSet)
                     (CollectionName collHashRWset)
                     (string_of_bytes (MetadataKeyHash w)))).
Qed.

Lemma rangeTxOps_empty precedingUpdates db order :
  rangeTxOps precedingUpdates db order ∅ = ((Some ∅, None), []).
Proof.
  induction order as [|ck rest IH]; simpl; [done|].
  by rewrite lookup_empty.
Qed.

Section RunKeys.

Variable SerializeMetadata : list KVMetadataEntry -> bytes * option error.
Variable precedingUpdates : PubAndHashUpdates.
Variable db : DB.

(** X8: every lookup of a run of prepareTxOps is about a composite key the
    write set writes: no state of another key is read. *)
Theorem prepareTxOps_looks_up_only_written_keys order rwset txht l :
  RangeOrder order (populated SerializeMetadata rwset) ->
  l ∈ snd (prepareTxOps SerializeMetadata order rwset txht
             precedingUpdates db) ->
  lookupKey l ∈ writtenKeys rwset.
Proof.
  intros Hord Hl.
  rewrite (prepareTxOps_spec SerializeMetadata precedingUpdates db
             order rwset txht Hord) in Hl.
  cbn [snd] in Hl.
  apply rangeTrace_elem in Hl as (ck & keyop & Hck & _ & Hl).
  rewrite (latestTrace_lookupKey precedingUpdates db ck l Hl).
  by destruct (populated_written SerializeMetadata rwset ck keyop Hck).
Qed.

(** X9: every key of the map prepareTxOps returns is a composite key the
    write set writes. *)
Theorem prepareTxOps_returns_only_written_keys order rwset txht m tr ck keyop :
  RangeOrder order (populated SerializeMetadata rwset) ->
  prepareTxOps SerializeMetadata order rwset txht precedingUpdates db =
    ((Some m, None), tr) ->
  m !! ck = Some keyop ->
  ck ∈ writtenKeys rwset.
Proof.
  intros Hord Hrun Hm.
  destruct (prepareTxOps_success SerializeMetadata precedingUpdates db
              order rwset txht m tr Hord Hrun ck) as [Hlook _].
  rewrite Hm in Hlook.
  destruct (populated SerializeMetadata rwset !! ck) as [keyop0|] eqn:Hck;
    [|done].
  by destruct (populated_written SerializeMetadata rwset ck keyop0 Hck).
Qed.

(** X10: for a write set that writes no key (its namespaces and
    collections hold no write and no metadata write), prepareTxOps returns
    the empty map with a nil error and makes no lookup. *)
Theorem prepareTxOps_read_only order rwset txht :
  writtenKeys rwset = [] ->
  prepareTxOps SerializeMetadata order rwset txht precedingUpdates db =
    ((Some ∅, None), []).
Proof.
  intros Hnone. unfold prepareTxOps.
  assert (populated SerializeMetadata rwset = ∅) as Hempty.
  { apply map_empty. intros ck.
    destruct (populated SerializeMetadata rwset !! ck) as [keyop|] eqn:Hck;
      [|done].
    destruct (populated_written SerializeMetadata rwset ck keyop Hck)
      as [Hin _].
    rewrite Hnone in Hin. by apply elem_of_nil in Hin. }
  unfold populated in Hempty. rewrite Hempty.
  apply rangeTxOps_empty.
Qed.

End RunKeys.

(** ** What a run depends on *)

Section Frame.

Variable SerializeMetadata : list KVMetadataEntry -> bytes * option error.
Variables precedingUpdates1 precedingUpdates2 : PubAndHashUpdates.
Variables db1 db2 : DB.

Lemma retrieveLatestState_agree ck :
  precedingGet precedingUpdates1 (ns ck) (coll ck) (key ck) =
    precedingGet precedingUpdates2 (ns ck) (coll ck) (key ck) ->
  (precedingGet precedingUpdates1 (ns ck) (coll ck) (key ck) = None ->
   persistedGet db1 (ns ck) (coll ck) (key ck) =
     persistedGet db2 (ns ck) (coll ck) (key ck)) ->
  retrieveLatestState (ns ck) (coll ck) (key ck) precedingUpdates1 db1 =
  retrieveLatestState (ns ck) (coll ck) (key ck) precedingUpdates2 db2.
Proof.
  unfold precedingGet, persistedGet, retrieveLatestState.
  destruct (decide (coll ck = "")); intros <- Hdb.
  - destruct (PubUpdates_Get precedingUpdates1 (ns ck) (key ck)); [done|].
    by rewrite Hdb.
  - destruct (HashUpdates_Get precedingUpdates1 (ns ck) (coll ck) (key ck));
      [done|].
    by rewrite Hdb.
Qed.

(** X11: a run of prepareTxOps depends on the lookup sources only through
    the keys of the populated entries that are neither deletes nor set in
    full: two pairs of sources whose indexes agree on those keys, and whose
    persisted states agree on those of them the index misses, give the
    same map, the same error and the same lookups. *)
Theorem prepareTxOps_reads_only_partial_keys order rwset txht :
  RangeOrder order (populated SerializeMetadata rwset) ->
  (forall ck keyop,
     populated SerializeMetadata rwset !! ck = Some keyop ->
     isDelete keyop = false ->
     isUpsertAndMetadataUpdate keyop = false ->
     precedingGet precedingUpdates1 (ns ck) (coll ck) (key ck) =
       precedingGet precedingUpdates2 (ns ck) (coll ck) (key ck) /\
     (precedingGet precedingUpdates1 (ns ck) (coll ck) (key ck) = None ->
      persistedGet db1 (ns ck) (coll ck) (key ck) =
        persistedGet db2 (ns ck) (coll ck) (key ck))) ->
  prepareTxOps SerializeMetadata order rwset txht precedingUpdates1 db1 =
  prepareTxOps SerializeMetadata order rwset txht precedingUpdates2 db2.
Proof.
  intros Hord Hagree.
  assert (forall ck keyop,
            populated SerializeMetadata rwset !! ck = Some keyop ->
            entryError precedingUpdates1 db1 ck keyop =
              entryError precedingUpdates2 db2 ck keyop /\
            entryResult precedingUpdates1 db1 ck keyop =
              entryResult precedingUpdates2 db2 ck keyop /\
            entryTrace precedingUpdates1 db1 ck keyop =
              entryTrace precedingUpdates2 db2 ck keyop) as Hentry.
  { intros ck keyop Hck.
    unfold entryError, entryResult, entryTrace, latestState, latestTrace.
    destruct (needsLookup keyop) eqn:Hneeds; [|done].
    unfold needsLookup in Hneeds.
    apply negb_true_iff, orb_false_iff in Hneeds as [Hdel Hboth].
    destruct (Hagree ck keyop Hck Hdel Hboth) as [Hpre Hdb].
    by rewrite (retrieveLatestState_agree ck Hpre Hdb). }
  rewrite !prepareTxOps_spec by done.
  assert (firstError precedingUpdates1 db1 order
            (populated SerializeMetadata rwset) =
          firstError precedingUpdates2 db2 order
            (populated SerializeMetadata rwset)) as ->.
  { clear Hord. induction order as [|ck rest IH]; simpl; [done|].
    destruct (populated SerializeMetadata rwset !! ck) as [keyop|] eqn:Hck;
      simpl; [|done].
    destruct (Hentry ck keyop Hck) as (-> & _ & _). by rewrite IH. }
  assert (rangeTrace precedingUpdates1 db1 order
            (populated SerializeMetadata rwset) =
          rangeTrace precedingUpdates2 db2 order
            (populated SerializeMetadata rwset)) as ->.
  { clear Hord. induction order as [|ck rest IH]; simpl; [done|].
    destruct (populated SerializeMetadata rwset !! ck) as [keyop|] eqn:Hck;
      [|done].
    destruct (Hentry ck keyop Hck) as (-> & _ & ->). by rewrite IH. }
  assert (resolvedMap precedingUpdates1 db1 order
            (populated SerializeMetadata rwset) =
          resolvedMap precedingUpdates2 db2 order
            (populated SerializeMetadata rwset)) as ->; [|done].
  apply map_eq; intros ck. rewrite !resolvedMap_lookup by done.
  destruct (populated SerializeMetadata rwset !! ck) as [keyop|] eqn:Hck;
    simpl; [|done].
  by destruct (Hentry ck keyop Hck) as (_ & -> & _).
Qed.

End Frame.

(** ** Falling back on the persisted state *)

(** X12: when the preceding-updates index reports absence for a key,
    retrieveLatestState returns the pair the persisted state reader
    returned for it, value and error as they are, after one call on the
    index and one on the reader. *)
Theorem retrieveLatestState_passes_db_answer precedingUpdates db ck :
  precedingGet precedingUpdates (ns ck) (coll ck) (key ck) = None ->
  retrieveLatestState (ns ck) (coll ck) (key ck) precedingUpdates db =
    (persistedGet db (ns ck) (coll ck) (key ck),
     [indexLookup ck; dbLookup ck]).
Proof.
  unfold precedingGet, persistedGet, retrieveLatestState, indexLookup,
    dbLookup.
  destruct (decide (coll ck = "")); by intros ->.
Qed.

(** ** The further scenarios, run *)

(** Replaces [H : p ∈ map_to_list m], for a closed map [m], by the cases of
    [p] being one of its entries. *)
Ltac enumerate_entries H :=
  match type of H with
  | _ ∈ map_to_list ?m =>
      let L := eval vm_compute in (map_to_list m) in
      let Hlist := fresh "Hlist" in
      assert (map_to_list m = L) as Hlist by (vm_compute; reflexivity);
      rewrite Hlist in H; clear Hlist;
      apply list_elem_of_In in H; cbn [In] in H
  end.

Lemma prepareTxOps_no_repeated_lookup_witness :
  NoDup (snd (prepareTxOps Scenario.codec Scenario.order Scenario.rwset None
                Scenario.precedingUpdates Scenario.db)).
Proof.
  apply (prepareTxOps_no_repeated_lookup
           Scenario.codec Scenario.precedingUpdates Scenario.db
           Scenario.order Scenario.rwset None).
  apply RangeOrder_keys.
Defined.

Lemma prepareTxOps_db_read_only_on_index_miss_witness :
  Cases.readH2 = dbLookup (lookupKey Cases.readH2) /\
  indexLookup (lookupKey Cases.readH2) ∈
    snd (prepareTxOps Scenario.codec Scenario.order Scenario.rwset None
           Scenario.precedingUpdates Scenario.db) /\
  precedingGet Scenario.precedingUpdates
    (ns (lookupKey Cases.readH2)) (coll (lookupKey Cases.readH2))
    (key (lookupKey Cases.readH2)) = None /\
  exists keyop,
    populated Scenario.codec Scenario.rwset !! lookupKey Cases.readH2 =
      Some keyop /\
    isDelete keyop = false /\ isUpsertAndMetadataUpdate keyop = false.
Proof.
  apply (prepareTxOps_db_read_only_on_index_miss
           Scenario.codec Scenario.precedingUpdates Scenario.db
           Scenario.order Scenario.rwset None Cases.readH2).
  - apply RangeOrder_keys.
  - apply list_elem_of_In. vm_compute. tauto.
  - reflexivity.
Defined.

Lemma prepareTxOps_looks_up_every_partial_entry_witness :
  indexLookup Scenario.keyB ∈ Scenario.trace /\
  (dbLookup Scenario.keyB ∈ Scenario.trace <->
   precedingGet Scenario.precedingUpdates (ns Scenario.keyB)
     (coll Scenario.keyB) (key Scenario.keyB) = None).
Proof.
  apply (prepareTxOps_looks_up_every_partial_entry
           Scenario.codec Scenario.precedingUpdates Scenario.db
           Scenario.order Scenario.rwset None Scenario.output Scenario.trace
           Scenario.keyB Scenario.valueOnly);
    [apply RangeOrder_keys
    |apply (returnsMap_eq Scenario.run); vm_compute; reflexivity
    |vm_compute; reflexivity..].
Defined.

Lemma prepareTxOps_error_is_db_error_witness :
  fst (fst (prepareTxOps Scenario.codec Scenario.order Scenario.rwset None
              Scenario.precedingUpdates Scenario.brokenDb)) = None /\
  exists ck keyop,
    populated Scenario.codec Scenario.rwset !! ck = Some keyop /\
    isDelete keyop = false /\ isUpsertAndMetadataUpdate keyop = false /\
    precedingGet Scenario.precedingUpdates (ns ck) (coll ck) (key ck) = None /\
    snd (persistedGet Scenario.brokenDb (ns ck) (coll ck) (key ck)) =
      Some (StorageError "leveldb: closed").
Proof.
  apply (prepareTxOps_error_is_db_error
           Scenario.codec Scenario.precedingUpdates Scenario.brokenDb
           Scenario.order Scenario.rwset None
           (StorageError "leveldb: closed")).
  - apply RangeOrder_keys.
  - vm_compute. reflexivity.
Defined.

Lemma prepareTxOps_covered_by_index_witness :
  (exists m,
     fst (prepareTxOps Scenario.codec Scenario.order Scenario.rwset None
            Cases.coveringUpdates Scenario.brokenDb) = (Some m, None)) /\
  Forall (fun l => isDbLookup l = false)
    (snd (prepareTxOps Scenario.codec Scenario.order Scenario.rwset None
            Cases.coveringUpdates Scenario.brokenDb)).
Proof.
  apply (prepareTxOps_covered_by_index
           Scenario.codec Cases.coveringUpdates Scenario.brokenDb
           Scenario.order Scenario.rwset None).
  - apply RangeOrder_keys.
  - intros ck keyop _ _. unfold precedingGet, Cases.coveringUpdates; simpl.
    destruct (decide (coll ck = "")); by eexists.
Defined.

Lemma prepareTxOps_nothing_to_resolve_witness :
  prepareTxOps Scenario.codec Cases.settledOrder Cases.settledRwset None
    Scenario.precedingUpdates Scenario.brokenDb =
    ((Some (populated Scenario.codec Cases.settledRwset), None), []).
Proof.
  apply (prepareTxOps_nothing_to_resolve
           Scenario.codec Scenario.precedingUpdates Scenario.brokenDb
           Cases.settledOrder Cases.settledRwset None).
  - apply RangeOrder_keys.
  - apply map_Forall_to_list, Forall_forall.
    intros [ck keyop] Hin. enumerate_entries Hin.
    repeat (destruct Hin as [Hin|Hin]; [by injection Hin as <- <-|]).
    destruct Hin.
Defined.

Lemma prepareTxOps_drops_only_unresolvable_witness :
  (is_Some (Scenario.output !! Scenario.keyA) ->
   is_Some (populated Scenario.codec Scenario.rwset !! Scenario.keyA)) /\
  (forall keyop,
     populated Scenario.codec Scenario.rwset !! Scenario.keyA = Some keyop ->
     (Scenario.output !! Scenario.keyA = None <->
      isDelete keyop = false /\ isUpsertAndMetadataUpdate keyop = false /\
      isOnlyUpsert keyop = false /\
      fst (latestState Scenario.precedingUpdates Scenario.db Scenario.keyA) =
        None)).
Proof.
  apply (prepareTxOps_drops_only_unresolvable
           Scenario.codec Scenario.precedingUpdates Scenario.db
           Scenario.order Scenario.rwset None Scenario.output Scenario.trace
           Scenario.keyA);
    [apply RangeOrder_keys
    |apply (returnsMap_eq Scenario.run); vm_compute; reflexivity].
Defined.

Lemma prepareTxOps_looks_up_only_written_keys_witness :
  lookupKey Cases.readH2 ∈ writtenKeys Scenario.rwset.
Proof.
  apply (prepareTxOps_looks_up_only_written_keys
           Scenario.codec Scenario.precedingUpdates Scenario.db
           Scenario.order Scenario.rwset None Cases.readH2).
  - apply RangeOrder_keys.
  - apply list_elem_of_In. vm_compute. tauto.
Defined.

Lemma prepareTxOps_returns_only_written_keys_witness :
  Scenario.keyB ∈ writtenKeys Scenario.rwset.
Proof.
  apply (prepareTxOps_returns_only_written_keys
           Scenario.codec Scenario.precedingUpdates Scenario.db
           Scenario.order Scenario.rwset None Scenario.output Scenario.trace
           Scenario.keyB (set_metadata Scenario.valueOnly Scenario.ownerX));
    [apply RangeOrder_keys
    |apply (returnsMap_eq Scenario.run); vm_compute; reflexivity
    |vm_compute; reflexivity].
Defined.

Lemma prepareTxOps_read_only_witness :
  prepareTxOps Scenario.codec [Scenario.keyA] Cases.readOnlyRwset None
    Scenario.precedingUpdates Scenario.brokenDb = ((Some ∅, None), []).
Proof.
  apply (prepareTxOps_read_only
           Scenario.codec Scenario.precedingUpdates Scenario.brokenDb
           [Scenario.keyA] Cases.readOnlyRwset None).
  reflexivity.
Defined.

Lemma prepareTxOps_reads_only_partial_keys_witness :
  prepareTxOps Scenario.codec Scenario.order Scenario.rwset None
    Scenario.precedingUpdates Scenario.db =
  prepareTxOps Scenario.codec Scenario.order Scenario.rwset None
    Scenario.precedingUpdates Cases.otherDb.
Proof.
  apply (prepareTxOps_reads_only_partial_keys
           Scenario.codec Scenario.precedingUpdates Scenario.precedingUpdates
           Scenario.db Cases.otherDb Scenario.order Scenario.rwset None).
  - apply RangeOrder_keys.
  - intros ck keyop Hck _ _.
    apply elem_of_map_to_list in Hck. enumerate_entries Hck.
    repeat (destruct Hck as [Hck|Hck];
            [injection Hck as <- <-; split;
             [reflexivity | intros _; vm_compute; reflexivity]|]).
    destruct Hck.
Defined.

Lemma retrieveLatestState_passes_db_answer_witness :
  retrieveLatestState (ns Scenario.keyB) (coll Scenario.keyB)
    (key Scenario.keyB) Scenario.precedingUpdates Scenario.db =
    (persistedGet Scenario.db (ns Scenario.keyB) (coll Scenario.keyB)
       (key Scenario.keyB),
     [indexLookup Scenario.keyB; dbLookup Scenario.keyB]).
Proof.
  apply (retrieveLatestState_passes_db_answer
           Scenario.precedingUpdates Scenario.db Scenario.keyB).
  reflexivity.
Defined.
